(** * ETM consensus core: a shallow embedding of [src/logic/consensus.js]

    The development follows the JavaScript source: the [Consensus]
    prototype (vote threshold, pending state, vote aggregation, PoW and
    signature verification) and the [Peer] module (version compatibility,
    seed reconnect).  JavaScript exceptions are an explicit result
    ([JsM]), node-style callbacks [(err, result)] are the value handed to
    the callback ([Callback]), and objects used as maps are [gmap]s. *)

From Stdlib Require Import ZArith QArith Strings.String Strings.Ascii Strings.Byte.
From Stdlib Require Import DecimalString List Lia.
From Stdlib Require DecimalN.
From stdpp Require Import gmap strings list fin_maps.

Import ListNotations.
Set Warnings "-register-all".
Local Open Scope Z_scope.
Local Open Scope string_scope.
Local Open Scope list_scope.

(* ===================================================================== *)
(** ** JavaScript values, exceptions and callbacks *)
(* ===================================================================== *)

Module Js.

(** A synchronous computation either returns or throws; the payload of
    [Throw] is the text of the exception ([e.toString()]). *)
Inductive JsM (A : Type) : Type :=
| Ret (a : A)
| Throw (e : string).
Arguments Ret {A} a.
Arguments Throw {A} e.

Definition bind {A B} (m : JsM A) (k : A -> JsM B) : JsM B :=
  match m with
  | Ret a => k a
  | Throw e => Throw e
  end.

(** [try { body } catch (e) { handler e }]. *)
Definition try_catch {A} (body : JsM A) (handler : string -> JsM A) : JsM A :=
  match body with
  | Ret a => Ret a
  | Throw e => handler e
  end.

(** What a node-style callback [cb(err, result)] receives. *)
Inductive Callback (A : Type) : Type :=
| CbErr (err : string)
| CbOk (result : A).
Arguments CbErr {A} err.
Arguments CbOk {A} result.

(** Numbers: finite doubles are idealised as rationals; [NaN] is kept
    because the comparisons of the source rely on it.  Infinities and
    rounding are outside the model. *)
Inductive JsNum : Type :=
| NaN
| Num (q : Q).

Definition Qltb (x y : Q) : bool := (Qnum x * QDen y <? Qnum y * QDen x)%Z.

(** [a < b], [a > b], [a >= b] on numbers: every comparison with [NaN]
    is false. *)
Definition num_lt (a b : JsNum) : bool :=
  match a, b with
  | Num x, Num y => Qltb x y
  | _, _ => false
  end.
Definition num_gt (a b : JsNum) : bool := num_lt b a.
Definition num_ge (a b : JsNum) : bool :=
  match a, b with
  | Num x, Num y => negb (Qltb x y)
  | _, _ => false
  end.

(** JSON-shaped values, as they reach the public methods. *)
Inductive JsVal : Type :=
| JUndefined
| JNull
| JBool (b : bool)
| JNumber (n : JsNum)
| JString (s : string)
| JArray (items : list JsVal)
| JObject (fields : list (string * JsVal)).

(** ToBoolean. *)
Definition truthy (v : JsVal) : bool :=
  match v with
  | JUndefined | JNull => false
  | JBool b => b
  | JNumber NaN => false
  | JNumber (Num q) => negb (Qnum q =? 0)%Z
  | JString s => negb (String.eqb s "")
  | JArray _ | JObject _ => true
  end.

Fixpoint assoc (name : string) (fields : list (string * JsVal)) : option JsVal :=
  match fields with
  | [] => None
  | (k, v) :: rest => if String.eqb k name then Some v else assoc name rest
  end.

Definition of_nat (n : nat) : JsVal := JNumber (Num (inject_Z (Z.of_nat n))).

(** The [length] of a string counts UTF-16 code units.  A text is held
    as its (well-formed) UTF-8 bytes: every character counts one unit, a
    character outside the basic plane (a four-byte sequence) two, and
    continuation bytes none. *)
Fixpoint utf16Length (s : string) : nat :=
  match s with
  | EmptyString => O
  | String c rest =>
      let n := N_of_ascii c in
      ((if (n <? 128)%N then 1 else if (n <? 192)%N then 0 else if (n <? 240)%N then 1 else 2)
       + utf16Length rest)%nat
  end.

(** Property read [v.name] for the two names the source reads from a
    dynamically typed value, [signatures] and [length]: reading from
    [undefined] or [null] throws a TypeError, strings and arrays own
    [length], an object (its field names distinct) yields its own field,
    every other read is [undefined]. *)
Definition getProp (v : JsVal) (name : string) : JsM JsVal :=
  match v with
  | JUndefined => Throw ("TypeError: Cannot read property '" ++ name ++ "' of undefined")
  | JNull => Throw ("TypeError: Cannot read property '" ++ name ++ "' of null")
  | JBool _ | JNumber _ => Ret JUndefined
  | JString s => if String.eqb name "length" then Ret (of_nat (utf16Length s)) else Ret JUndefined
  | JArray l => if String.eqb name "length" then Ret (of_nat (List.length l)) else Ret JUndefined
  | JObject fs => Ret (default JUndefined (assoc name fs))
  end.

(** [a && b]: [b] is evaluated only when [a] is truthy. *)
Definition js_and (a : JsVal) (b : JsM JsVal) : JsM JsVal :=
  if truthy a then b else Ret a.

End Js.
Export Js.

Notation "'let*' x ':=' m 'in' k" := (Js.bind m (fun x => k))
  (at level 10, x pattern, m at level 100, k at level 200).

(* ===================================================================== *)
(** ** Buffers, hexadecimal text and string helpers *)
(* ===================================================================== *)

Module Buf.

(** A [Buffer] is a list of bytes. *)
Definition byte_of (n : N) : byte := default x00 (Byte.of_N n).

Definition hexDigit (n : N) : ascii :=
  ascii_of_N (if (n <? 10)%N then 48 + n else 87 + n).

(** [buf.toString("hex")]: two lowercase digits per byte. *)
Fixpoint hexEncode (buf : list byte) : string :=
  match buf with
  | [] => EmptyString
  | b :: rest =>
      String (hexDigit (Byte.to_N b / 16)) (String (hexDigit (Byte.to_N b mod 16)) (hexEncode rest))
  end.

Definition hexVal (c : ascii) : option N :=
  let n := N_of_ascii c in
  if ((48 <=? n) && (n <=? 57))%N then Some (n - 48)%N
  else if ((97 <=? n) && (n <=? 102))%N then Some (n - 87)%N
  else if ((65 <=? n) && (n <=? 70))%N then Some (n - 55)%N
  else None.

(** [Buffer.from(s, "hex")] / [new Buffer(s, "hex")]: pairs of digits are
    decoded until the first pair that is not hexadecimal; a trailing odd
    digit is dropped. *)
Fixpoint hexDecode (s : string) : list byte :=
  match s with
  | String a (String b rest) =>
      match hexVal a, hexVal b with
      | Some x, Some y => byte_of (16 * x + y) :: hexDecode rest
      | _, _ => []
      end
  | _ => []
  end.

(** The bytes [hash.update(str)] feeds to the digest, for the ASCII text
    (hex digits, decimal digits) the source hashes. *)
Definition utf8 (s : string) : list byte := map byte_of_ascii (list_ascii_of_string s).

(** [buf.readUInt8(i)]: a RangeError outside the buffer. *)
Definition readUInt8 (buf : list byte) (i : nat) : JsM byte :=
  match buf !! i with
  | Some v => Ret v
  | None => Throw "RangeError: Index out of range"
  end.

(** [buf.writeUInt8(r, i)] at an index that was just read. *)
Definition writeUInt8 (buf : list byte) (r : byte) (i : nat) : list byte := <[i:=r]> buf.

(** [v & 0x77]. *)
Definition and0x77 (v : byte) : byte := byte_of (N.land (Byte.to_N v) 119).

(** Big-endian two's-complement encoding on [n] bytes, as
    [ByteBuffer.writeLong] ([n = 8]) and [writeInt] ([n = 4]) lay it out:
    the low [8 * n] bits of the integer. *)
Fixpoint be_bytes (n : nat) (z : Z) : list byte :=
  match n with
  | O => []
  | S n' => be_bytes n' (z / 256) ++ [byte_of (Z.to_N (z mod 256))]
  end.

(** [ByteBuffer.writeLong(value)] of a number goes through
    [Long.fromNumber], which saturates: a value at or below [-2^63] is
    written as [-2^63], a value [v] with [v + 1 >= 2^63] as [2^63 - 1]. *)
Definition writeLong (z : Z) : list byte :=
  if (z <=? - 2 ^ 63)%Z then be_bytes 8 (- 2 ^ 63)
  else if (2 ^ 63 <=? z + 1)%Z then be_bytes 8 (2 ^ 63 - 1)
  else be_bytes 8 z.

End Buf.
Export Buf.

Module Str.

(** [s.startsWith(t)]. *)
Definition startsWith (s t : string) : bool := String.prefix t s.

(** [s.indexOf(t)]: the first position at which [t] occurs, or [-1]. *)
Fixpoint indexOfFrom (t s : string) (i : Z) : Z :=
  if String.prefix t s then i
  else match s with
       | EmptyString => -1
       | String _ s' => indexOfFrom t s' (i + 1)
       end.
Definition indexOf (s t : string) : Z := indexOfFrom t s 0.

(** [s.split(sep)] for a one-character separator. *)
Fixpoint split (sep : ascii) (s : string) : list string :=
  match s with
  | EmptyString => [EmptyString]
  | String c rest =>
      if Ascii.eqb c sep then EmptyString :: split sep rest
      else match split sep rest with
           | h :: t => String c h :: t
           | [] => [String c EmptyString]
           end
  end.

(** The decimal writing of a non-negative integer: [n.toString()] for
    an integer up to [2^53]. *)
Definition toString10 (n : N) : string := NilEmpty.string_of_uint (N.to_uint n).

(** [n.toString(2)] of a non-negative integer. *)
Fixpoint bits (p : positive) : string :=
  match p with
  | xH => "1"
  | xO p' => (bits p' ++ "0")%string
  | xI p' => (bits p' ++ "1")%string
  end.
Definition toString2 (n : N) : string :=
  match n with
  | N0 => "0"
  | Npos p => bits p
  end.

Fixpoint zeros (n : nat) : string :=
  match n with
  | O => EmptyString
  | S n' => String "0" (zeros n')
  end.

(** [s.padStart(width, '0')]. *)
Definition padStart (width : nat) (s : string) : string :=
  (zeros (width - String.length s) ++ s)%string.

(** The double nearest to a non-negative integer (below [2^1024]), ties
    to the even mantissa: the value a number has when it is written as
    that integer. *)
Definition roundToDouble (n : N) : N :=
  if (n <? 2 ^ 53)%N then n
  else
    let e := (N.log2 n - 52)%N in
    let q := N.shiftr n e in
    let r := (n - N.shiftl q e)%N in
    let half := N.shiftl 1 (e - 1) in
    let q' := if (r <? half)%N then q
              else if (half <? r)%N then (q + 1)%N
              else if N.even q then q else (q + 1)%N in
    N.shiftl q' e.

(** The digits of [Number::toString] for a double [x >= 2^53] of [D]
    decimal digits: the least [k] and a [k]-digit [s] such that
    [s * 10^(n - k)] is read back as [x], the [s] nearest to [x] (the
    even one on a tie); the result is [(s, k, n)].  [n] is [D], except
    when a power of ten above [x] is read back as [x]. *)
Fixpoint shortestDigits (fuel k : nat) (x : N) (D : nat) : N * nat * nat :=
  match fuel with
  | O => (x, D, D)
  | S fuel' =>
      let p := N.of_nat (D - k) in
      let lo := (x / 10 ^ p)%N in
      let hi := (lo + 1)%N in
      let okLo := N.eqb (roundToDouble (lo * 10 ^ p)) x in
      let okHi := N.eqb (roundToDouble (hi * 10 ^ p)) x in
      let up := if N.eqb hi (10 ^ N.of_nat k) then (1%N, 1%nat, S D) else (hi, k, D) in
      let dLo := (x - lo * 10 ^ p)%N in
      let dHi := (hi * 10 ^ p - x)%N in
      if okLo && okHi then
        if (dLo <? dHi)%N then (lo, k, D)
        else if (dHi <? dLo)%N then up
        else if N.even lo then (lo, k, D) else up
      else if okLo then (lo, k, D)
      else if okHi then up
      else shortestDigits fuel' (S k) x D
  end.

(** [x.toString()] of a number [x] that is a non-negative integer.  Up
    to [2^53] every integer is a double and its text is its decimal
    writing; above, the text has the fewest digits that read back as the
    same double, followed by zeros, and from [10^21] on it is written
    with an exponent. *)
Definition numberToString (x : N) : string :=
  if (x <=? 2 ^ 53)%N then toString10 x
  else
    let D := String.length (toString10 x) in
    let '(s, k, n) := shortestDigits D 1 x D in
    let digits := toString10 s in
    if (n <=? 21)%nat then (digits ++ zeros (n - k))%string
    else
      match digits with
      | String d rest =>
          match rest with
          | EmptyString => (String d EmptyString ++ "e+" ++ toString10 (N.of_nat (n - 1)))%string
          | _ => (String d EmptyString ++ "." ++ rest ++ "e+" ++ toString10 (N.of_nat (n - 1)))%string
          end
      | EmptyString => EmptyString
      end.

(** [nonce.toString()] for a nonce given as the integer [n]: as a number
    it is the double nearest to [n]. *)
Definition nonceToString (n : N) : string := numberToString (roundToDouble n).

Definition isDigit (c : ascii) : bool :=
  let n := N_of_ascii c in ((48 <=? n) && (n <=? 57))%N.

Fixpoint allDigits (s : string) : bool :=
  match s with
  | EmptyString => true
  | String c rest => isDigit c && allDigits rest
  end.

Fixpoint decimalFrom (acc : N) (s : string) : N :=
  match s with
  | EmptyString => acc
  | String c rest => decimalFrom (10 * acc + (N_of_ascii c - 48))%N rest
  end.

End Str.
Export Str.

(* ===================================================================== *)
(** ** SHA-256, for closed examples on the digest of the platform *)
(* ===================================================================== *)

Module SHA256.
Local Open Scope N_scope.

(** Words are numbers below [2^32]. *)
Definition wrap (x : N) : N := x mod 4294967296.
Definition rotr (n x : N) : N := N.lor (N.shiftr x n) (wrap (N.shiftl x (32 - n))).
Definition Ch (x y z : N) : N := N.lxor (N.land x y) (N.land (N.lxor x 4294967295) z).
Definition Maj (x y z : N) : N := N.lxor (N.lxor (N.land x y) (N.land x z)) (N.land y z).
Definition Sigma0 (x : N) : N := N.lxor (N.lxor (rotr 2 x) (rotr 13 x)) (rotr 22 x).
Definition Sigma1 (x : N) : N := N.lxor (N.lxor (rotr 6 x) (rotr 11 x)) (rotr 25 x).
Definition sigma0 (x : N) : N := N.lxor (N.lxor (rotr 7 x) (rotr 18 x)) (N.shiftr x 3).
Definition sigma1 (x : N) : N := N.lxor (N.lxor (rotr 17 x) (rotr 19 x)) (N.shiftr x 10).

Definition K : list N :=
  [ 1116352408; 1899447441; 3049323471; 3921009573; 961987163; 1508970993;
    2453635748; 2870763221; 3624381080; 310598401; 607225278; 1426881987;
    1925078388; 2162078206; 2614888103; 3248222580; 3835390401; 4022224774;
    264347078; 604807628; 770255983; 1249150122; 1555081692; 1996064986;
    2554220882; 2821834349; 2952996808; 3210313671; 3336571891; 3584528711;
    113926993; 338241895; 666307205; 773529912; 1294757372; 1396182291;
    1695183700; 1986661051; 2177026350; 2456956037; 2730485921; 2820302411;
    3259730800; 3345764771; 3516065817; 3600352804; 4094571909; 275423344;
    430227734; 506948616; 659060556; 883997877; 958139571; 1322822218;
    1537002063; 1747873779; 1955562222; 2024104815; 2227730452; 2361852424;
    2428436474; 2756734187; 3204031479; 3329325298 ].

Definition H0 : list N :=
  [ 1779033703; 3144134277; 1013904242; 2773480762;
    1359893119; 2600822924; 528734635; 1541459225 ].

(** The message schedule, latest word first. *)
Fixpoint extend (n : nat) (ws : list N) : list N :=
  match n with
  | O => ws
  | S n' =>
      extend n' (wrap (sigma1 (nth 1 ws 0) + nth 6 ws 0 + sigma0 (nth 14 ws 0) + nth 15 ws 0)
                 :: ws)
  end.
Definition schedule (block : list N) : list N := rev (extend 48 (rev block)).

Definition step (st : list N) (kw : N * N) : list N :=
  match st with
  | [a; b; c; d; e; f; g; h] =>
      let t1 := h + Sigma1 e + Ch e f g + fst kw + snd kw in
      let t2 := Sigma0 a + Maj a b c in
      [wrap (t1 + t2); a; b; c; wrap (d + t1); e; f; g]
  | _ => st
  end.

Fixpoint zipWith {A B C} (f : A -> B -> C) (l : list A) (m : list B) : list C :=
  match l, m with
  | a :: l', b :: m' => f a b :: zipWith f l' m'
  | _, _ => []
  end.

Definition compress (h : list N) (block : list N) : list N :=
  zipWith (fun x y => wrap (x + y)) h
    (fold_left step (zipWith pair K (schedule block)) h).

(** Big-endian words of a byte string whose length is a multiple of 4. *)
Fixpoint words (bytes : list byte) : list N :=
  match bytes with
  | a :: b :: c :: d :: rest =>
      (Byte.to_N a * 16777216 + Byte.to_N b * 65536 + Byte.to_N c * 256 + Byte.to_N d)
      :: words rest
  | _ => []
  end.

Definition unword (x : N) : list byte :=
  [byte_of (x / 16777216); byte_of (x / 65536 mod 256); byte_of (x / 256 mod 256);
   byte_of (x mod 256)].

(** The message, the byte [0x80], zeros up to 56 modulo 64, and the bit
    length on 8 bytes. *)
Definition pad (msg : list byte) : list byte :=
  let len := List.length msg in
  let fill := ((119 - len mod 64) mod 64)%nat in
  msg ++ [byte_of 128] ++ repeat x00 fill ++ be_bytes 8 (Z.of_nat len * 8).

Fixpoint blocks (n : nat) (h : list N) (ws : list N) : list N :=
  match n with
  | O => h
  | S n' => blocks n' (compress h (take 16 ws)) (drop 16 ws)
  end.

(** SHA-256 (FIPS 180-4). *)
Definition digest (msg : list byte) : list byte :=
  let ws := words (pad msg) in
  flat_map unword (blocks (List.length ws / 16) H0 ws).

End SHA256.

(* ===================================================================== *)
(** ** Records of the data plane *)
(* ===================================================================== *)

Module Block.
Record t : Type := mk
  { height : Z; id : string; timestamp : Z; generatorPublicKey : string }.
End Block.

(** A signature item: an object with a text [key] and a text [sig].  An
    array of signatures that also holds [null] elements is treated in
    [ConsensusExt] ([RawVotes]). *)
Module VoteItem.
Record t : Type := mk { key : string; sig : string }.
End VoteItem.

Module Votes.
Record t : Type := mk
  { height : Z; id : string; signatures : list VoteItem.t; timestamp : Z }.
End Votes.

(** A proposal; [nonce] is the non-negative integer the nonce is
    written as. *)
Module Propose.
Record t : Type := mk
  { height : Z; id : string; timestamp : Z; generatorPublicKey : string;
    address : string; hash : string; nonce : N; signature : string }.
End Propose.

(** What the source takes from modules that are not part of it: the slot
    constants ([utils/slots.js]), the process-wide feature switch, the
    [crypto], [ed], [bignum] and [ip] libraries, the delegates module,
    the configuration, and the ECMAScript conversions of non-numeric
    text. *)
Record Platform : Type := mkPlatform
  { slots_delegates : Z;
    slots_leading : nat;
    enableLongId : bool;
    sha256 : list byte -> list byte;
    ed_Verify : list byte -> list byte -> list byte -> JsM bool;
    bignum_toBuffer : string -> JsM (list byte);
    ip_toLong : string -> JsNum;
    getDelegateIndex : Propose.t -> Callback Z;
    StringToNumber : string -> JsNum;
    ToPrimitiveString : JsVal -> string;
    netVersion : string }.

Section Conversions.
Variable P : Platform.

(** [Number(s)]: the empty string is [0], a run of decimal digits is its
    value, any other text is left to the platform's StringToNumber. *)
Definition Number (s : string) : JsNum :=
  match s with
  | EmptyString => Num 0
  | _ => if allDigits s then Num (inject_Z (Z.of_N (decimalFrom 0 s)))
         else StringToNumber P s
  end.

(** Whether ToPrimitive succeeds on a JSON-shaped value.  The fields of
    an object are data, never functions: an object with a field named
    [toString] has no callable [toString] left, and the inherited
    [valueOf] returns the object itself, so the conversion ends in a
    TypeError; without such a field [Object.prototype.toString] answers.
    An array is joined, which converts each of its elements (other than
    [null] and [undefined]) in turn. *)
Fixpoint hasPrimitive (v : JsVal) : bool :=
  match v with
  | JArray items => forallb hasPrimitive items
  | JObject fields => negb (existsb (String.eqb "toString") (map fst fields))
  | _ => true
  end.

(** ToPrimitive of an object or array: the text of the platform where
    the conversion succeeds. *)
Definition ToPrimitive (v : JsVal) : JsM string :=
  if hasPrimitive v then Ret (ToPrimitiveString P v)
  else Throw "TypeError: Cannot convert object to primitive value".

(** ToNumber, as the relational operators apply it to an operand. *)
Definition ToNumber (v : JsVal) : JsM JsNum :=
  match v with
  | JUndefined => Ret NaN
  | JNull => Ret (Num 0)
  | JBool b => Ret (Num (if b then 1 else 0))
  | JNumber n => Ret n
  | JString s => Ret (Number s)
  | JArray _ | JObject _ => let* text := ToPrimitive v in Ret (Number text)
  end.

(** [v > n] and [v >= n] against a number. *)
Definition js_gt (v : JsVal) (n : JsNum) : JsM bool :=
  let* x := ToNumber v in Ret (num_gt x n).
Definition js_ge (v : JsVal) (n : JsNum) : JsM bool :=
  let* x := ToNumber v in Ret (num_ge x n).

End Conversions.

(* ===================================================================== *)
(** ** The [Consensus] prototype *)
(* ===================================================================== *)

Module Consensus.

(** [this.pendingBlock], [this.pendingVotes], [this.votesKeySet]. *)
Record State : Type := mkState
  { pendingBlock : option Block.t;
    pendingVotes : option Votes.t;
    votesKeySet : gmap string bool }.

(** The constructor. *)
Definition initial : State :=
  {| pendingBlock := None; pendingVotes := None; votesKeySet := ∅ |}.

(** [votesKeySet] is an object literal [{}]: a read of a name it does not
    own falls through to [Object.prototype], whose members are all
    truthy. *)
Definition ObjectPrototype_names : list string :=
  [ "constructor"; "__defineGetter__"; "__defineSetter__"; "hasOwnProperty";
    "__lookupGetter__"; "__lookupSetter__"; "isPrototypeOf";
    "propertyIsEnumerable"; "toString"; "valueOf"; "__proto__";
    "toLocaleString" ].

(** The truth value of [this.votesKeySet[k]]. *)
Definition keySeen (m : gmap string bool) (k : string) : bool :=
  match m !! k with
  | Some b => b
  | None => bool_decide (k ∈ ObjectPrototype_names)
  end.

Definition sigKeys (pv : option Votes.t) : list string :=
  match pv with
  | Some v => map VoteItem.key (Votes.signatures v)
  | None => []
  end.

Section WithPlatform.
Variable P : Platform.

Fixpoint readBytes (buf : list byte) (from count : nat) : JsM (list byte) :=
  match count with
  | O => Ret []
  | S count' =>
      match buf !! from with
      | Some b => let* rest := readBytes buf (S from) count' in Ret (b :: rest)
      | None => Throw "TypeError: Illegal value: undefined (not an integer)"
      end
  end.

(** The id as the buffer receives it: the text itself in long-id mode,
    else the first 8 bytes of [bignum(id).toBuffer({size: 8})]. *)
Definition idBytes (id : string) : JsM (list byte) :=
  if enableLongId P then Ret (utf8 id)
  else let* buf := bignum_toBuffer P id in readBytes buf 0 8.

Definition getVoteHash (height : Z) (id : string) : JsM (list byte) :=
  let* idPart := idBytes id in
  Ret (sha256 P (writeLong height ++ idPart)).

(** The body of the [try] block of [verifyVote]. *)
Definition verifyVote_body (height : Z) (id : string) (voteItem : VoteItem.t) : JsM bool :=
  let* hash := getVoteHash height id in
  let signature := hexDecode (VoteItem.sig voteItem) in
  let publicKey := hexDecode (VoteItem.key voteItem) in
  ed_Verify P hash signature publicKey.

Definition verifyVote (height : Z) (id : string) (voteItem : VoteItem.t) : JsM bool :=
  try_catch (verifyVote_body height id voteItem) (fun _ => Ret false).

(** [votes && votes.signatures && votes.signatures.length > slots.delegates * 2 / 3] *)
Definition hasEnoughVotes (votes : JsVal) : JsM JsVal :=
  js_and votes
    (let* sigs := getProp votes "signatures" in
     js_and sigs
       (let* len := getProp sigs "length" in
        let* enough := js_gt P len (Num (inject_Z (slots_delegates P) * 2 / 3)) in
        Ret (JBool enough))).

(** [votes && votes.signatures && votes.signatures.length >= 6] *)
Definition hasEnoughVotesRemote (votes : JsVal) : JsM JsVal :=
  js_and votes
    (let* sigs := getProp votes "signatures" in
     js_and sigs
       (let* len := getProp sigs "length" in
        let* enough := js_ge P len (Num 6) in
        Ret (JBool enough))).

(** A vote set as the dynamically typed methods see it. *)
Definition jsOfItem (item : VoteItem.t) : JsVal :=
  JObject [("key", JString (VoteItem.key item)); ("sig", JString (VoteItem.sig item))].
Definition jsOfVotes (v : Votes.t) : JsVal :=
  JObject [("height", JNumber (Num (inject_Z (Votes.height v))));
           ("id", JString (Votes.id v));
           ("signatures", JArray (map jsOfItem (Votes.signatures v)));
           ("timestamp", JNumber (Num (inject_Z (Votes.timestamp v))))].

Definition getPendingBlock (s : State) : option Block.t := pendingBlock s.

Definition setPendingBlock (block : Block.t) (s : State) : State :=
  {| pendingVotes := None; votesKeySet := ∅; pendingBlock := Some block |}.

Definition clearState (s : State) : State :=
  {| pendingVotes := None; votesKeySet := ∅; pendingBlock := None |}.

(** One turn of the loop of [addPendingVotes] on [item = votes.signatures[i]]. *)
Definition addItem (votes : Votes.t) (item : VoteItem.t) (s : State) : JsM State :=
  if keySeen (votesKeySet s) (VoteItem.key item) then Ret s
  else
    let* ok := verifyVote (Votes.height votes) (Votes.id votes) item in
    if ok then
      let keys := <[VoteItem.key item := true]> (votesKeySet s) in
      let acc :=
        match pendingVotes s with
        | Some pv => pv
        | None => {| Votes.height := Votes.height votes; Votes.id := Votes.id votes;
                     Votes.signatures := []; Votes.timestamp := Votes.timestamp votes |}
        end in
      Ret {| pendingBlock := pendingBlock s;
             pendingVotes := Some {| Votes.height := Votes.height acc; Votes.id := Votes.id acc;
                                     Votes.signatures := Votes.signatures acc ++ [item];
                                     Votes.timestamp := Votes.timestamp acc |};
             votesKeySet := keys |}
    else Ret s.

Fixpoint addItems (votes : Votes.t) (items : list VoteItem.t) (s : State) : JsM State :=
  match items with
  | [] => Ret s
  | item :: rest => let* s' := addItem votes item s in addItems votes rest s'
  end.

(** [addPendingVotes(votes)]: the value returned and the state left. *)
Definition addPendingVotes (votes : Votes.t) (s : State) : JsM (option Votes.t * State) :=
  match pendingBlock s with
  | None => Ret (pendingVotes s, s)
  | Some b =>
      if negb (Z.eqb (Block.height b) (Votes.height votes)) || negb (String.eqb (Block.id b) (Votes.id votes))
      then Ret (pendingVotes s, s)
      else let* s' := addItems votes (Votes.signatures votes) s in
           Ret (pendingVotes s', s')
  end.

(** [ByteBuffer.writeInt(value)]: a TypeError unless the value is an
    integer, then its low 32 bits, big-endian. *)
Definition writeInt (value : JsNum) : JsM (list byte) :=
  match value with
  | NaN => Throw "TypeError: Illegal value: NaN (not an integer)"
  | Num q =>
      if Z.eqb (Qnum q mod QDen q) 0 then Ret (be_bytes 4 (Qnum q / QDen q))
      else Throw "TypeError: Illegal value (not an integer)"
  end.

(** The buffer [getProposeHash] fills and hands to SHA-256. *)
Definition proposeHashBytes (propose : Propose.t) : JsM (list byte) :=
  let* idPart := idBytes (Propose.id propose) in
  let generatorPublicKeyBuffer := hexDecode (Propose.generatorPublicKey propose) in
  let parts := split ":" (Propose.address propose) in
  match parts with
  | [part0; part1] =>
      let* ipBytes := writeInt (ip_toLong P part0) in
      let* portBytes := writeInt (Number P part1) in
      Ret (writeLong (Propose.height propose) ++ idPart ++ generatorPublicKeyBuffer
           ++ be_bytes 4 (Propose.timestamp propose) ++ ipBytes ++ portBytes)
  | _ => Throw "AssertionError"
  end.

Definition getProposeHash (propose : Propose.t) : JsM (list byte) :=
  let* bytes := proposeHashBytes propose in
  Ret (sha256 P bytes).

(** [getAddressIndex]: the delegate index reduced modulo
    [2^leading - 1], in binary, left-padded to [leading] digits.  With
    [leading = 0] the modulus is [0], the remainder is [NaN] and the text
    is "NaN". *)
Definition getAddressIndex (propose : Propose.t) : Callback string :=
  match getDelegateIndex P propose with
  | CbErr err => CbErr err
  | CbOk index =>
      if Z.ltb index 0 then CbErr "Error: Failed to get address index."
      else
        let m := 2 ^ Z.of_nat (slots_leading P) - 1 in
        let strIndex := if Z.eqb m 0 then "NaN" else toString2 (Z.to_N (index mod m)) in
        CbOk (padStart (slots_leading P) strIndex)
  end.

(** The loop shared by [entanmoPoWVerifier] and [proposePoWHashConvert]:
    [for (i = from; i < from + count; i++) buf[i] = buf[i] & 0x77]. *)
Fixpoint maskFrom (buf : list byte) (from count : nat) : JsM (list byte) :=
  match count with
  | O => Ret buf
  | S count' =>
      let* v := readUInt8 buf from in
      maskFrom (writeUInt8 buf (and0x77 v) from) (S from) count'
  end.

Definition maskLeading (buf : list byte) : JsM (list byte) :=
  maskFrom buf 0 (slots_leading P).

Definition entanmoPoWVerifier (hash : string) (nonce : N) : JsM string :=
  let src := (hash ++ nonceToString nonce)%string in
  let buf := sha256 P (utf8 src) in
  let* masked := maskLeading buf in
  Ret (hexEncode masked).

Definition proposePoWHashConvert (hexPoWHash : string) : JsM string :=
  let buf := hexDecode hexPoWHash in
  let* masked := maskLeading buf in
  Ret (hexEncode masked).

(** [verifyPOW(propose, cb)]: what [cb] receives, unless an exception
    escapes first. *)
Definition verifyPOW (propose : Propose.t) : JsM (Callback bool) :=
  let* digest := getProposeHash propose in
  let hash := hexEncode digest in
  match getAddressIndex propose with
  | CbErr err => Ret (CbErr err)
  | CbOk target =>
      let* sha256Result := entanmoPoWVerifier hash (Propose.nonce propose) in
      let* proposePoWResult := proposePoWHashConvert (Propose.hash propose) in
      if String.eqb sha256Result proposePoWResult && Z.eqb (indexOf sha256Result target) 0
      then Ret (CbOk true)
      else Ret (CbOk false)
  end.

(** The body of the [try] block of [acceptPropose]. *)
Definition verifySignature_body (propose : Propose.t) : JsM (Callback unit) :=
  let signature := hexDecode (Propose.signature propose) in
  let publicKey := hexDecode (Propose.generatorPublicKey propose) in
  let* ok := ed_Verify P (hexDecode (Propose.hash propose)) signature publicKey in
  if ok then Ret (CbOk tt) else Ret (CbErr "Vefify signature failed").

(** The arrow function [(err, ok) => { ... }] that [acceptPropose] hands
    to [verifyPOW]: what it passes on to [cb]. *)
Definition acceptPropose_cb (propose : Propose.t) (pow : Callback bool) : JsM (Callback unit) :=
  match pow with
  | CbErr err => Ret (CbErr err)
  | CbOk false => Ret (CbErr "Verify porpose powHash failed.")
  | CbOk true =>
      try_catch (verifySignature_body propose)
        (fun e => Ret (CbErr ("Verify signature exception: " ++ e)%string))
  end.

(** [acceptPropose(propose, cb)]: what [cb] receives. *)
Definition acceptPropose (propose : Propose.t) : JsM (Callback unit) :=
  let* pow := verifyPOW propose in
  acceptPropose_cb propose pow.

(** The operations that drive the pending state. *)
Inductive Op : Type :=
| OpSetPendingBlock (block : Block.t)
| OpClearState
| OpAddPendingVotes (votes : Votes.t).

Definition runOp (o : Op) (s : State) : JsM State :=
  match o with
  | OpSetPendingBlock b => Ret (setPendingBlock b s)
  | OpClearState => Ret (clearState s)
  | OpAddPendingVotes v => let* r := addPendingVotes v s in Ret (snd r)
  end.

Fixpoint run (ops : list Op) (s : State) : JsM State :=
  match ops with
  | [] => Ret s
  | o :: rest => let* s' := runOp o s in run rest s'
  end.

End WithPlatform.

(** The PoW mask, as a function on whole buffers: [& 0x77] on each of the
    first [leading] bytes, the rest untouched. *)
Definition mask (leading : nat) (buf : list byte) : list byte :=
  map and0x77 (take leading buf) ++ drop leading buf.


(** The public keys of the signers of the accumulated signatures: the
    bytes [verifyVote] decodes from each [key] field. *)
Definition signerKeys (pv : option Votes.t) : list (list byte) :=
  map hexDecode (sigKeys pv).

(** The keys recorded in [votesKeySet] are those of the accumulated
    signatures, each recorded as [true] and each signed once. *)
Definition keysConsistent (s : State) : Prop :=
  dom (votesKeySet s) = (list_to_set (sigKeys (pendingVotes s)) : gset string)
  /\ (forall k b, votesKeySet s !! k = Some b -> b = true)
  /\ NoDup (sigKeys (pendingVotes s)).

End Consensus.

(* ===================================================================== *)
(** ** The [Peer] module *)
(* ===================================================================== *)

Module Peer.

(** A DHT node: [{ host, port, id }]. *)
Record Node : Type := mkNode { host : string; port : Z; id : list byte }.

Section WithPlatform.
Variable P : Platform.

(** The loop of [isCompatible]; a missing [numsCompatible[i]] compares as
    [undefined], that is as [NaN]. *)
Fixpoint compareVersions (nums numsCompatible : list JsNum) : bool :=
  match nums with
  | [] => true
  | n :: rest =>
      let c := hd NaN numsCompatible in
      if num_lt n c then false
      else if num_gt n c then true
      else compareVersions rest (tl numsCompatible)
  end.

Definition compatibleVersion : string :=
  if String.eqb (netVersion P) "testnet" then "1.2.3"
  else if String.eqb (netVersion P) "mainnet" then "1.3.1"
  else "0.0.0".

Definition isCompatible (version : string) : bool :=
  let nums := map (Number P) (split "." version) in
  if negb (Nat.eqb (List.length nums) 3) then true
  else
    let numsCompatible := map (Number P) (split "." compatibleVersion) in
    compareVersions nums numsCompatible.

End WithPlatform.

(** Lexicographic [>=] on component sequences. *)
Fixpoint lexGe (xs ys : list Q) : Prop :=
  match xs, ys with
  | x :: xs', y :: ys' => (y < x)%Q \/ (x == y /\ lexGe xs' ys')%Q
  | _, _ => True
  end.

Definition isInDht (allNodes : list Node) (n : Node) : bool :=
  existsb (fun dn => String.eqb (host dn) (host n) && Z.eqb (port dn) (port n)) allNodes.

(** One tick of the seed-reconnect timer of [initDHT]: the nodes handed
    to [dht.addNode], in order.  [host] and [port] are the local
    [publicIp] and [peerPort]; [allNodes] is [dht.nodes.toArray()]. *)
Definition reconnectTick (host0 : string) (port0 : Z)
    (bootstrapNodes allNodes : list Node) : list Node :=
  List.filter (fun n => negb (String.eqb (host n) host0) && negb (Z.eqb (port n) port0))
    (List.filter (fun node => negb (isInDht allNodes node)) bootstrapNodes).

(** The seed-reconnect rule in the words of the specification: every
    bootstrap seed absent from the table, except the node itself (host
    and port both equal to the local ones). *)
Definition reconnectSpec (host0 : string) (port0 : Z)
    (bootstrapNodes allNodes : list Node) : list Node :=
  List.filter (fun n => negb (String.eqb (host n) host0 && Z.eqb (port n) port0))
    (List.filter (fun node => negb (isInDht allNodes node)) bootstrapNodes).

End Peer.

(* ===================================================================== *)
(** ** A concrete platform for closed examples *)
(* ===================================================================== *)

Module Demo.

(** A stand-in digest: 31 zero bytes and the input length modulo 256. *)
Definition digest (input : list byte) : list byte :=
  repeat x00 31 ++ [byte_of (N.of_nat (List.length input) mod 256)].

(** A stand-in verifier: it throws on an empty public key, and accepts
    exactly the signatures equal to the message. *)
Definition verify (message signature publicKey : list byte) : JsM bool :=
  match publicKey with
  | [] => Throw "Error: argument publicKey must be a buffer of 32 bytes"
  | _ => Ret (String.eqb (hexEncode signature) (hexEncode message))
  end.

Definition platform : Platform :=
  {| slots_delegates := 101;
     slots_leading := 2;
     enableLongId := true;
     sha256 := digest;
     ed_Verify := verify;
     bignum_toBuffer := fun _ => Ret (repeat x00 8);
     ip_toLong := fun _ => Num 0;
     getDelegateIndex := fun _ => CbOk 0;
     StringToNumber := fun _ => NaN;
     ToPrimitiveString := fun _ => "[object Object]";
     netVersion := "mainnet" |}.

Definition block : Block.t :=
  {| Block.height := 10; Block.id := "A"; Block.timestamp := 1000000;
     Block.generatorPublicKey := "0a" |}.

(** The vote digest of [block] on [platform], in hex: a signature the
    stand-in verifier accepts. *)
Definition goodSig : string :=
  hexEncode (digest (writeLong 10 ++ utf8 "A")).

Definition item (k : string) : VoteItem.t := {| VoteItem.key := k; VoteItem.sig := goodSig |}.

Definition votes (id : string) (items : list VoteItem.t) : Votes.t :=
  {| Votes.height := 10; Votes.id := id; Votes.signatures := items; Votes.timestamp := 1000000 |}.

(** A state with [block] pending and one vote accumulated. *)
Definition pending : Consensus.State :=
  {| Consensus.pendingBlock := Some block;
     Consensus.pendingVotes := Some (votes "A" [item "01"]);
     Consensus.votesKeySet := {[ "01" := true ]} |}.

Definition propose : Propose.t :=
  {| Propose.height := 100; Propose.id := "123456789012345"; Propose.timestamp := 1000000;
     Propose.generatorPublicKey := "0a"; Propose.address := "192.168.0.1:7000";
     Propose.hash := hexEncode (repeat x00 31 ++ [byte_of 68]);
     Propose.nonce := 4242;
     Propose.signature := hexEncode (repeat x00 31 ++ [byte_of 68]) |}.

(** A bootstrap seed on another host that listens on the same port as
    the local node. *)
Definition seed : Peer.Node :=
  {| Peer.host := "10.0.0.2"; Peer.port := 5000; Peer.id := [] |}.

(** [propose] with a generator key that is not hexadecimal. *)
Definition proposeBadKey : Propose.t :=
  {| Propose.height := 100; Propose.id := "123456789012345"; Propose.timestamp := 1000000;
     Propose.generatorPublicKey := "zz"; Propose.address := "192.168.0.1:7000";
     Propose.hash := Propose.hash propose; Propose.nonce := 4242;
     Propose.signature := Propose.signature propose |}.

End Demo.

Module DemoSha.

(** [ip.toLong] on a dotted quad of decimal octets. *)
Definition ipToLong (address : string) : JsNum :=
  Num (inject_Z (Z.of_N
    (fold_left (fun acc octet => ((acc * 256 + decimalFrom 0 octet) mod 2 ^ 32)%N)
               (split "." address) 0%N))).

(** A platform whose digest is SHA-256 itself, with two leading bytes and
    a delegates module that answers index 0. *)
Definition platform : Platform :=
  {| slots_delegates := 101;
     slots_leading := 2;
     enableLongId := true;
     sha256 := SHA256.digest;
     ed_Verify := Demo.verify;
     bignum_toBuffer := fun _ => Ret (repeat x00 8);
     ip_toLong := ipToLong;
     getDelegateIndex := fun _ => CbOk 0;
     StringToNumber := fun _ => NaN;
     ToPrimitiveString := fun _ => "[object Object]";
     netVersion := "mainnet" |}.

(** A proposal mined for that platform: [hash] is the SHA-256 digest of
    the hex text of the proposal digest followed by "20". *)
Definition propose : Propose.t :=
  {| Propose.height := 100; Propose.id := "123456789012345"; Propose.timestamp := 1000000;
     Propose.generatorPublicKey :=
       "0102030405060708090a0b0c0d0e0f101112131415161718191a1b1c1d1e1f20";
     Propose.address := "192.168.0.1:7000";
     Propose.hash := "800b1392aba8725517e27afe002032c0c83d1dfa3a49789eebffcef72a8ba0c1";
     Propose.nonce := 20;
     Propose.signature := EmptyString |}.



End DemoSha.

(* ===================================================================== *)
(** ** More of the [Consensus] prototype: votes and proposals as they are
    created, and the slot test *)
(* ===================================================================== *)

Module ConsensusExt.
Import Consensus.

(** [{ publicKey, privateKey }], both buffers. *)
Record Keypair : Type := mkKeypair { publicKey : list byte; privateKey : list byte }.

(** The number a text of binary digits denotes (a digit other than "1"
    counts as "0"). *)
Fixpoint binValueFrom (acc : N) (s : string) : N :=
  match s with
  | EmptyString => acc
  | String c rest => binValueFrom (2 * acc + (if Ascii.eqb c "1" then 1 else 0))%N rest
  end.
Definition binValue (s : string) : N := binValueFrom 0 s.

Fixpoint ones (n : nat) : string :=
  match n with
  | O => EmptyString
  | S n' => String "1" (ones n')
  end.

Definition sigsOf (pv : option Votes.t) : list VoteItem.t :=
  match pv with
  | Some v => Votes.signatures v
  | None => []
  end.

(** [this.pendingVotes] as the dynamically typed methods receive it. *)
Definition jsOfPending (s : State) : JsVal :=
  match pendingVotes s with
  | Some v => jsOfVotes v
  | None => JNull
  end.

(** A vote as [normalizeVotes] lets it through: [signatures] is an
    array, and nothing is asked of its elements; an element that is
    [null] is [None]. *)
Record RawVotes : Type := mkRawVotes
  { rawHeight : Z; rawId : string; rawSignatures : list (option VoteItem.t);
    rawTimestamp : Z }.

(** The height, id and timestamp of a vote. *)
Definition headerOf (votes : RawVotes) : Votes.t :=
  {| Votes.height := rawHeight votes; Votes.id := rawId votes; Votes.signatures := [];
     Votes.timestamp := rawTimestamp votes |}.

(** The header an accumulator carries: that of the accumulator it grew
    from, else that of the vote that created it. *)
Definition headerKept (v : Votes.t) (s s' : State) : Prop :=
  forall acc, pendingVotes s' = Some acc ->
    match pendingVotes s with
    | Some old => Votes.height acc = Votes.height old /\ Votes.id acc = Votes.id old
    | None => Votes.height acc = Votes.height v /\ Votes.id acc = Votes.id v
    end.

Section WithPlatform.
Variable P : Platform.

(** [slots.getSlotNumber], [ed.Sign], the miner instance and
    [slots.powTimeOut] come from outside the source. *)
Variable getSlotNumber : Z -> Z.
Variable ed_Sign : list byte -> Keypair -> JsM (list byte).
Variable mint : string -> string -> Z -> Callback (string * N).
Variable powTimeOut : Z.

Definition hasPendingBlock (timestamp : Z) (s : State) : bool :=
  match pendingBlock s with
  | None => false
  | Some b => Z.eqb (getSlotNumber (Block.timestamp b)) (getSlotNumber timestamp)
  end.

(** The loop of [addPendingVotes] on such an array.  Reading
    [item.key] of a [null] element throws a TypeError outside any [try]:
    the method ends there, and the state is what the turns before made
    of it. *)
Fixpoint addItemsRaw (votes : RawVotes) (items : list (option VoteItem.t)) (s : State)
    : State * JsM unit :=
  match items with
  | [] => (s, Ret tt)
  | None :: _ => (s, Throw "TypeError: Cannot read property 'key' of null")
  | Some item :: rest =>
      match addItem P (headerOf votes) item s with
      | Ret s' => addItemsRaw votes rest s'
      | Throw e => (s, Throw e)
      end
  end.

(** [addPendingVotes(votes)] on such a vote: the state left, and the
    value returned or the exception thrown. *)
Definition addPendingVotesRaw (votes : RawVotes) (s : State)
    : State * JsM (option Votes.t) :=
  match pendingBlock s with
  | None => (s, Ret (pendingVotes s))
  | Some b =>
      if negb (Z.eqb (Block.height b) (rawHeight votes))
         || negb (String.eqb (Block.id b) (rawId votes))
      then (s, Ret (pendingVotes s))
      else
        let '(s', r) := addItemsRaw votes (rawSignatures votes) s in
        (s', let* _ := r in Ret (pendingVotes s'))
  end.

(** The [forEach] of [createVotes]: one signature item per keypair, in
    order. *)
Fixpoint signAll (hash : list byte) (keypairs : list Keypair) : JsM (list VoteItem.t) :=
  match keypairs with
  | [] => Ret []
  | el :: rest =>
      let* sg := ed_Sign hash el in
      let* items := signAll hash rest in
      Ret ({| VoteItem.key := hexEncode (publicKey el); VoteItem.sig := hexEncode sg |} :: items)
  end.

Definition createVotes (keypairs : list Keypair) (block : Block.t) : JsM Votes.t :=
  let* hash := getVoteHash P (Block.height block) (Block.id block) in
  let* items := signAll hash keypairs in
  Ret {| Votes.height := Block.height block; Votes.id := Block.id block;
         Votes.signatures := items; Votes.timestamp := Block.timestamp block |}.

(** [pow(propose, cb)]: what [cb] receives; an error of the miner is
    passed on as its message. *)
Definition pow (propose : Propose.t) : JsM (Callback (string * N)) :=
  let* digest := getProposeHash P propose in
  let hash := hexEncode digest in
  match getAddressIndex P propose with
  | CbErr err => Ret (CbErr err)
  | CbOk target =>
      match mint hash target (powTimeOut * 1000) with
      | CbErr message => Ret (CbErr message)
      | CbOk result => Ret (CbOk (fst result, snd result))
      end
  end.

(** The object [createPropose] builds before the PoW: [hash], [signature]
    and [nonce] are not assigned yet (they are read by no step of [pow]);
    the record holds an empty text and [0] in their place. *)
Definition proposeDraft (block : Block.t) (address : string) : Propose.t :=
  {| Propose.height := Block.height block; Propose.id := Block.id block;
     Propose.timestamp := Block.timestamp block;
     Propose.generatorPublicKey := Block.generatorPublicKey block;
     Propose.address := address;
     Propose.hash := EmptyString; Propose.nonce := 0%N; Propose.signature := EmptyString |}.

Definition createPropose (keypair : Keypair) (block : Block.t) (address : string)
    : JsM (Callback Propose.t) :=
  if negb (String.eqb (hexEncode (publicKey keypair)) (Block.generatorPublicKey block))
  then Throw "AssertionError"
  else
    let propose := proposeDraft block address in
    let* r := pow propose in
    match r with
    | CbErr err => Ret (CbErr err)
    | CbOk (powHash, powNonce) =>
        let* sg := ed_Sign (hexDecode powHash) keypair in
        Ret (CbOk {| Propose.height := Propose.height propose; Propose.id := Propose.id propose;
                     Propose.timestamp := Propose.timestamp propose;
                     Propose.generatorPublicKey := Propose.generatorPublicKey propose;
                     Propose.address := Propose.address propose;
                     Propose.hash := powHash; Propose.nonce := powNonce;
                     Propose.signature := hexEncode sg |})
    end.

(** Every accumulated signature was verified for the pending block, and
    the accumulator carries that block's height and id. *)
Definition votesVerified (s : State) : Prop :=
  match pendingVotes s with
  | None => True
  | Some acc =>
      exists b, pendingBlock s = Some b
        /\ Votes.height acc = Block.height b /\ Votes.id acc = Block.id b
        /\ Forall (fun item => verifyVote P (Block.height b) (Block.id b) item = Ret true)
                  (Votes.signatures acc)
  end.

End WithPlatform.
End ConsensusExt.

Module DemoExt.
Import ConsensusExt.

(** [Demo.platform] with [slots.leading = 0]. *)
Definition platform0 : Platform :=
  {| slots_delegates := 101; slots_leading := 0; enableLongId := true;
     sha256 := Demo.digest; ed_Verify := Demo.verify;
     bignum_toBuffer := fun _ => Ret (repeat x00 8);
     ip_toLong := fun _ => Num 0;
     getDelegateIndex := fun _ => CbOk 0%Z;
     StringToNumber := fun _ => NaN;
     ToPrimitiveString := fun _ => "[object Object]";
     netVersion := "mainnet" |}.

(** [Demo.platform] with the proposal height as delegate index. *)
Definition platformByHeight : Platform :=
  {| slots_delegates := 101; slots_leading := 2; enableLongId := true;
     sha256 := Demo.digest; ed_Verify := Demo.verify;
     bignum_toBuffer := fun _ => Ret (repeat x00 8);
     ip_toLong := fun _ => Num 0;
     getDelegateIndex := fun p => CbOk (Propose.height p);
     StringToNumber := fun _ => NaN;
     ToPrimitiveString := fun _ => "[object Object]";
     netVersion := "mainnet" |}.

Definition withHeight (h : Z) (p : Propose.t) : Propose.t :=
  {| Propose.height := h; Propose.id := Propose.id p; Propose.timestamp := Propose.timestamp p;
     Propose.generatorPublicKey := Propose.generatorPublicKey p;
     Propose.address := Propose.address p; Propose.hash := Propose.hash p;
     Propose.nonce := Propose.nonce p; Propose.signature := Propose.signature p |}.

Definition withHash (h : string) (p : Propose.t) : Propose.t :=
  {| Propose.height := Propose.height p; Propose.id := Propose.id p;
     Propose.timestamp := Propose.timestamp p;
     Propose.generatorPublicKey := Propose.generatorPublicKey p;
     Propose.address := Propose.address p; Propose.hash := h;
     Propose.nonce := Propose.nonce p; Propose.signature := Propose.signature p |}.

Definition withAddress (a : string) (p : Propose.t) : Propose.t :=
  {| Propose.height := Propose.height p; Propose.id := Propose.id p;
     Propose.timestamp := Propose.timestamp p;
     Propose.generatorPublicKey := Propose.generatorPublicKey p;
     Propose.address := a; Propose.hash := Propose.hash p;
     Propose.nonce := Propose.nonce p; Propose.signature := Propose.signature p |}.

(** The hash of [Demo.propose] with the bits [0x88] set in its first two
    bytes, followed by text that is not hexadecimal. *)
Definition tamperedHash : string :=
  "88880000000000000000000000000000000000000000000000000000000000" ++ "44zz".

(** A stand-in signer for [Demo.verify]: the signature is the message. *)
Definition sign (message : list byte) (kp : Keypair) : JsM (list byte) := Ret message.

(** A stand-in miner: the nonce 4242 and the masked digest it yields. *)
Definition mint (src difficulty : string) (timeout : Z) : Callback (string * N) :=
  CbOk (hexEncode (Consensus.mask 2 (Demo.digest (utf8 (src ++ toString10 4242)%string))), 4242%N).

Definition keypair (b : byte) : Keypair := {| publicKey := [b]; privateKey := [b; b] |}.

Definition slotOf (timestamp : Z) : Z := (timestamp / 10)%Z.

(** A state with [Demo.block] pending and 68 signatures accumulated. *)
Definition quorum : Consensus.State :=
  {| Consensus.pendingBlock := Some Demo.block;
     Consensus.pendingVotes := Some (Demo.votes "A" (repeat (Demo.item "01") 68));
     Consensus.votesKeySet := {[ "01" := true ]} |}.

End DemoExt.

(* ===================================================================== *)
(** ** More of the [Peer] module: health filter and peer selection *)
(* ===================================================================== *)

Module PeerExt.
Import Peer.

(** The text of an integer inside a template literal. *)
Definition numberText (z : Z) : string :=
  if Z.ltb z 0 then ("-" ++ toString10 (Z.to_N (- z)))%string else toString10 (Z.to_N z).

(** The text [host:port] of a node, and of the local node. *)
Definition address (n : Node) : string := (host n ++ ":" ++ numberText (port n))%string.
Definition selfAddress (publicIp : string) (peerPort : Z) : string :=
  (publicIp ++ ":" ++ numberText peerPort)%string.

(** The [Map] keyed by address, in insertion order: a node is entered
    only when its address is not a key yet. *)
Fixpoint fillNodesMap (nodesMap : list (string * Node)) (peers : list Node)
    : list (string * Node) :=
  match peers with
  | [] => nodesMap
  | n :: rest =>
      if existsb (String.eqb (address n)) (map fst nodesMap)
      then fillNodesMap nodesMap rest
      else fillNodesMap (nodesMap ++ [(address n, n)]) rest
  end.

(** [getHealthNodes]: [dht] is [None] while [priv.dht] is null, else the
    nodes of the routing table. *)
Definition getHealthNodes (blackPeers : gset string) (publicIp : string) (peerPort : Z)
    (dht : option (list Node)) : list Node :=
  match dht with
  | None => []
  | Some table =>
      let peers := List.filter (fun n => negb (bool_decide (host n ∈ blackPeers))) table in
      let peers := List.filter
                     (fun n => negb (String.eqb (address n) (selfAddress publicIp peerPort)))
                     peers in
      map snd (fillNodesMap [] peers)
  end.

(** [Math.floor(Math.random() * n)] is some index below [n]: the [k]-th
    draw reduced modulo [n]. *)
Definition randomIndex (draw : nat -> nat) (k n : nat) : nat := (draw k mod n)%nat.

(** The loop of [getRandomPeers]: the peers picked, the array
    [allNodes] as the [splice]s leave it, and the draws used. *)
Fixpoint pickPeers (count : nat) (draw : nat -> nat) (k : nat)
    (allNodes randomPeers : list Node) : list Node * list Node * nat :=
  match count with
  | O => (randomPeers, allNodes, k)
  | S count' =>
      match allNodes with
      | [] => (randomPeers, allNodes, k)
      | first :: _ =>
          let rnd := randomIndex draw k (List.length allNodes) in
          let peer := nth rnd allNodes first in
          pickPeers count' draw (S k) (delete rnd allNodes) (randomPeers ++ [peer])
      end
  end.

(** [getRandomPeers(count, allNodes)]: the array returned, the argument
    array after the call, and the draws used.  With
    [allNodes.length <= count] the argument itself is returned. *)
Definition getRandomPeers (count : nat) (allNodes : list Node) (draw : nat -> nat) (k : nat)
    : list Node * list Node * nat :=
  if (List.length allNodes <=? count)%nat then (allNodes, allNodes, k)
  else pickPeers count draw k allNodes [].

(** [Peer.getbootstrapNode]: the peers handed to the callback and
    [priv.bootstrapNodes], which is the array the selection splices. *)
Definition getbootstrapNode (bootstrapNodes : list Node) (draw : nat -> nat) (k : nat)
    : list Node * list Node * nat :=
  getRandomPeers 1 bootstrapNodes draw k.

(** Successive calls of [getbootstrapNode]: the bootstrap array left. *)
Fixpoint bootstrapAfter (calls : nat) (bootstrapNodes : list Node) (draw : nat -> nat) (k : nat)
    : list Node :=
  match calls with
  | O => bootstrapNodes
  | S calls' =>
      let '(_, rest, k') := getbootstrapNode bootstrapNodes draw k in
      bootstrapAfter calls' rest draw k'
  end.


(** [nodes[rnd]] for the index [getRandomNode] draws: [undefined]
    ([None]) on an empty array, where [rnd] is 0. *)
Definition pickNode (nodes : list Node) (draw : nat -> nat) (k : nat) : option Node :=
  match nodes with
  | [] => None
  | _ => nodes !! randomIndex draw k (List.length nodes)
  end.

(** [getRandomNode]: a healthy node when there are any, else a bootstrap
    seed.  [priv.bootstrapNodes] is [None] until [initDHT] assigns it:
    with no healthy node either, [nodes.length] throws a TypeError. *)
Definition getRandomNode (healthy : list Node) (bootstrapNodes : option (list Node))
    (draw : nat -> nat) (k : nat) : JsM (option Node) :=
  match healthy with
  | [] =>
      match bootstrapNodes with
      | None => Throw "TypeError: Cannot read property 'length' of undefined"
      | Some nodes => Ret (pickNode nodes draw k)
      end
  | _ => Ret (pickNode healthy draw k)
  end.

End PeerExt.

Module DemoPeers.
Import Peer.

Definition node (h : string) (p : Z) : Node := {| host := h; port := p; id := [] |}.

Definition seeds : list Node :=
  [node "10.0.0.2" 5000; node "10.0.0.3" 5001; node "10.0.0.4" 5002].

(** The draws of the stand-in random source: 1, 2, 3, ... *)
Definition draw (k : nat) : nat := S k.

(** [Demo.platform] on a network that is neither mainnet nor testnet. *)
Definition platformLocalnet : Platform :=
  {| slots_delegates := 101; slots_leading := 2; enableLongId := true;
     sha256 := Demo.digest; ed_Verify := Demo.verify;
     bignum_toBuffer := fun _ => Ret (repeat x00 8);
     ip_toLong := fun _ => Num 0;
     getDelegateIndex := fun _ => CbOk 0%Z;
     StringToNumber := fun _ => NaN;
     ToPrimitiveString := fun _ => "[object Object]";
     netVersion := "localnet" |}.

End DemoPeers.

(* ===================================================================== *)
(** ** The [Transactions] module: the pool of unconfirmed transactions
    and the storage asset *)
(* ===================================================================== *)

Module Transactions.

Record Transaction : Type := mkTransaction
  { id : string; type : Z; senderPublicKey : string; recipientId : string }.

(** An element of the array [unconfirmedTransactions]: a transaction,
    the tombstone [false], or an empty slot. *)
Inductive Slot : Type :=
| Live (trs : Transaction)
| Removed
| Hole.

(** [__private]: the counter, the array, the id index (an object used as
    a map) and, for the members of [Object.prototype] that were used as
    an array key by [removeUnconfirmedTransaction], the fact that the
    array holds [false] under that key. *)
Record Pool : Type := mkPool
  { unconfirmedNumber : Z;
    unconfirmedTransactions : list Slot;
    unconfirmedTransactionsIdIndex : gmap string nat;
    memberKeys : gset string }.

Definition empty : Pool :=
  {| unconfirmedNumber := 0; unconfirmedTransactions := [];
     unconfirmedTransactionsIdIndex := ∅; memberKeys := ∅ |}.

(** What [unconfirmedTransactionsIdIndex[id]] evaluates to: an index the
    object owns, a member inherited from [Object.prototype], or
    [undefined]. *)
Inductive IndexRead : Type :=
| IdxNumber (n : nat)
| IdxMember (name : string)
| IdxUndefined.

Definition readIndex (index : gmap string nat) (k : string) : IndexRead :=
  match index !! k with
  | Some n => IdxNumber n
  | None =>
      if bool_decide (k ∈ Consensus.ObjectPrototype_names) then IdxMember k else IdxUndefined
  end.

(** [index[k] = n]: an assignment to [__proto__] of a number is ignored. *)
Definition writeIndex (k : string) (n : nat) (index : gmap string nat) : gmap string nat :=
  if String.eqb k "__proto__" then index else <[k:=n]> index.

(** [array[n] = v]: past the end the array grows, leaving empty slots. *)
Definition arraySet (n : nat) (v : Slot) (l : list Slot) : list Slot :=
  if (n <? List.length l)%nat then <[n:=v]> l
  else l ++ repeat Hole (n - List.length l) ++ [v].

(** A value read from the array: a transaction, [false] or [undefined]. *)
Inductive Read : Type :=
| RTransaction (trs : Transaction)
| RFalse
| RUndefined.

Definition readSlot (l : list Slot) (n : nat) : Read :=
  match l !! n with
  | Some (Live trs) => RTransaction trs
  | Some Removed => RFalse
  | Some Hole | None => RUndefined
  end.

(** [unconfirmedTransactions[index]] for each kind of [index]. *)
Definition readAt (p : Pool) (i : IndexRead) : Read :=
  match i with
  | IdxNumber n => readSlot (unconfirmedTransactions p) n
  | IdxMember name => if bool_decide (name ∈ memberKeys p) then RFalse else RUndefined
  | IdxUndefined => RUndefined
  end.

Definition getUnconfirmedTransaction (k : string) (p : Pool) : Read :=
  readAt p (readIndex (unconfirmedTransactionsIdIndex p) k).

Definition hasUnconfirmedTransaction (transaction : Transaction) (p : Pool) : bool :=
  match readIndex (unconfirmedTransactionsIdIndex p) (id transaction) with
  | IdxUndefined => false
  | i => match readAt p i with RFalse => false | _ => true end
  end.

Definition removeUnconfirmedTransaction (k : string) (p : Pool) : Pool :=
  match readIndex (unconfirmedTransactionsIdIndex p) k with
  | IdxUndefined => p
  | IdxNumber n =>
      {| unconfirmedNumber := unconfirmedNumber p - 1;
         unconfirmedTransactions := arraySet n Removed (unconfirmedTransactions p);
         unconfirmedTransactionsIdIndex := delete k (unconfirmedTransactionsIdIndex p);
         memberKeys := memberKeys p |}
  | IdxMember name =>
      {| unconfirmedNumber := unconfirmedNumber p - 1;
         unconfirmedTransactions := unconfirmedTransactions p;
         unconfirmedTransactionsIdIndex := unconfirmedTransactionsIdIndex p;
         memberKeys := {[ name ]} ∪ memberKeys p |}
  end.

(** [addUnconfirmedTransaction]: [applied] is what [applyUnconfirmed]
    passes to its callback, [None] for success; the result is what [cb]
    receives and the pool left. *)
Definition addUnconfirmedTransaction (applied : option string) (transaction : Transaction)
    (p : Pool) : option string * Pool :=
  match applied with
  | Some err => (Some err, removeUnconfirmedTransaction (id transaction) p)
  | None =>
      let txs := unconfirmedTransactions p ++ [Live transaction] in
      let index := (List.length txs - 1)%nat in
      (None,
       {| unconfirmedNumber := unconfirmedNumber p + 1;
          unconfirmedTransactions := txs;
          unconfirmedTransactionsIdIndex :=
            writeIndex (id transaction) index (unconfirmedTransactionsIdIndex p);
          memberKeys := memberKeys p |})
  end.

(** The elements that are not [false], as pushed: an empty slot reads as
    [undefined] ([None]). *)
Fixpoint notFalse (l : list Slot) : list (option Transaction) :=
  match l with
  | [] => []
  | Live trs :: rest => Some trs :: notFalse rest
  | Removed :: rest => notFalse rest
  | Hole :: rest => None :: notFalse rest
  end.

(** [a.splice(limit)]: drop everything from position [limit], counted
    from the end when negative. *)
Definition spliceFrom {A} (limit : Z) (a : list A) : list A :=
  if Z.ltb limit 0 then take (Z.to_nat (Z.max 0 (Z.of_nat (List.length a) + limit))) a
  else take (Z.to_nat limit) a.

(** [getUnconfirmedTransactionList(reverse, limit)]; [limit] is [None]
    when the argument is not given. *)
Definition getUnconfirmedTransactionList (reverse : bool) (limit : option Z) (p : Pool)
    : list (option Transaction) :=
  let a := notFalse (unconfirmedTransactions p) in
  let a := if reverse then rev a else a in
  match limit with
  | Some l => if Z.eqb l 0 then a else spliceFrom l a
  | None => a
  end.

(** The operations on the pool, with the outcome of [applyUnconfirmed]
    for an addition. *)
Inductive PoolOp : Type :=
| PoolAdd (applied : option string) (transaction : Transaction)
| PoolRemove (k : string).

Definition opId (o : PoolOp) : string :=
  match o with
  | PoolAdd _ transaction => id transaction
  | PoolRemove k => k
  end.

Definition runPoolOp (o : PoolOp) (p : Pool) : Pool :=
  match o with
  | PoolAdd applied transaction => snd (addUnconfirmedTransaction applied transaction p)
  | PoolRemove k => removeUnconfirmedTransaction k p
  end.

Definition runPool (ops : list PoolOp) (p : Pool) : Pool := fold_left (fun q o => runPoolOp o q) ops p.

Fixpoint liveCount (l : list Slot) : Z :=
  match l with
  | [] => 0
  | Live _ :: rest => 1 + liveCount rest
  | _ :: rest => liveCount rest
  end.

(** The counter is the number of live entries, there is no empty slot,
    and every index entry points at a live transaction with that id. *)
Definition poolConsistent (p : Pool) : Prop :=
  unconfirmedNumber p = liveCount (unconfirmedTransactions p)
  /\ ~ In Hole (unconfirmedTransactions p)
  /\ (forall k n, unconfirmedTransactionsIdIndex p !! k = Some n ->
        exists trs, unconfirmedTransactions p !! n = Some (Live trs) /\ id trs = k).

(** [Storage.calculateFee] and [Storage.verify]; the asset is
    [trs.asset.storage], [None] when it is missing, its [content] a text
    ([None] when missing); [baseFee] is
    [library.base.block.calculateFee()]. *)
Definition storageCalculateFee (baseFee : Z) (content : string) : Z :=
  (Z.of_nat (List.length (hexDecode content)) / 200 + 1) * baseFee.

Definition storageVerify (storage : option (option string)) : Callback unit :=
  match storage with
  | None | Some None => CbErr "Invalid transaction asset"
  | Some (Some content) =>
      if String.eqb content "" then CbErr "Invalid transaction asset"
      else if (4096 <? Z.of_nat (List.length (hexDecode content)))%Z
           then CbErr "Invalid storage content size"
           else CbOk tt
  end.

End Transactions.

Module DemoPool.
Import Transactions.

Definition tx (k : string) : Transaction :=
  {| id := k; type := 0; senderPublicKey := "0a"; recipientId := "A1" |}.

(** Two additions, a removal, and an addition [applyUnconfirmed]
    refuses. *)
Definition ops : list PoolOp :=
  [PoolAdd None (tx "t1"); PoolAdd None (tx "t2"); PoolRemove "t1";
   PoolAdd (Some "Account not found") (tx "t3")].

End DemoPool.

(* ===================================================================== *)
(** ** [utils/router.js], peer requests and the P2P helper *)
(* ===================================================================== *)

Module Router.

(** The check [map] makes on a key of its configuration: the method and
    the path of the route, or the error it throws.  A key that passes is
    not registered yet. *)
Definition checkRoute (params : string) : JsM (string * string) :=
  match split " " params with
  | [method; path] =>
      if existsb (String.eqb method) ["post"; "get"; "put"] then Ret (method, path)
      else Throw "Error: wrong map config"
  | _ => Throw "Error: wrong map config"
  end.

Section WithExpress.

(** [router[method](path, handler)] of express: it adds the route, or it
    throws on a path it cannot compile. *)
Variable register : string -> string -> JsM unit.

(** One turn of the [forEach]: the check, then the registration. *)
Definition mapRoute (params : string) : JsM (string * string) :=
  let* route := checkRoute params in
  let* _ := register (fst route) (snd route) in
  Ret route.

(** [map(root, config)], [config] being its entries in the order of
    [Object.keys]: the routes registered, in order, and the exception
    that ended the [forEach], if any.  A route is the method, the path
    and the name of the handler in [root]. *)
Fixpoint mapRoutes (config : list (string * string))
    : list (string * string * string) * option string :=
  match config with
  | [] => ([], None)
  | (params, name) :: rest =>
      match mapRoute params with
      | Throw e => ([], Some e)
      | Ret (method, path) =>
          let '(routes, thrown) := mapRoutes rest in
          ((method, path, name) :: routes, thrown)
      end
  end.

End WithExpress.
End Router.

Module PeerRequest.
Import Peer PeerExt.

(** What the callback of [request] makes of the HTTP outcome: a
    transport error is passed on, a status other than 200 becomes an
    error text, else the body is the result. *)
Definition requestOutcome {R} (err : option string) (statusCode : Z) (result : R) : Callback R :=
  match err with
  | Some e => CbErr e
  | None =>
      if negb (Z.eqb statusCode 200)
      then CbErr ("Invalid status code: " ++ numberText statusCode)%string
      else CbOk result
  end.

(** The address [request] and [proposeRequest] post to. *)
Definition requestUri (method : string) (contact : Node) : string :=
  ("http://" ++ host contact ++ ":" ++ numberText (port contact - 1) ++ "/peer/" ++ method)%string.

(** The two things that can happen after [randomRequest] has started:
    the 4-second timer fires, or [request] calls back. *)
Inductive Event (R : Type) : Type :=
| TimerFired
| Responded (outcome : Callback R).
Arguments TimerFired {R}.
Arguments Responded {R} outcome.

(** What [cb] is called with: [(err, result, randomNode)]. *)
Inductive Reply (R : Type) : Type :=
| ReplyNoContact
| ReplyTimeout (node : Node)
| ReplyOutcome (outcome : Callback R) (node : Node).
Arguments ReplyNoContact {R}.
Arguments ReplyTimeout {R} node.
Arguments ReplyOutcome {R} outcome node.

(** One event, with the flag [isCallbacked]: the call of [cb] it makes,
    if any, and the flag afterwards. *)
Definition onEvent {R} (node : Node) (isCallbacked : bool) (e : Event R)
    : option (Reply R) * bool :=
  if isCallbacked then (None, true)
  else match e with
       | TimerFired => (Some (ReplyTimeout node), true)
       | Responded outcome => (Some (ReplyOutcome outcome node), true)
       end.

Fixpoint onEvents {R} (node : Node) (isCallbacked : bool) (events : list (Event R))
    : list (Reply R) :=
  match events with
  | [] => []
  | e :: rest =>
      let '(reply, flag) := onEvent node isCallbacked e in
      match reply with
      | Some r => r :: onEvents node flag rest
      | None => onEvents node flag rest
      end
  end.

(** [randomRequest]: every call of [cb], in order, for the node
    [getRandomNode] returned ([None] when it returned [undefined]) and
    the events that follow. *)
Definition randomRequest {R} (randomNode : option Node) (events : list (Event R))
    : list (Reply R) :=
  match randomNode with
  | None => [ReplyNoContact]
  | Some node => onEvents node false events
  end.

(** [randomRequest] from the choice of the node on: an exception of
    [getRandomNode] escapes it before [cb] is called. *)
Definition randomRequestFrom {R} (healthy : list Node) (bootstrapNodes : option (list Node))
    (draw : nat -> nat) (k : nat) (events : list (Event R)) : JsM (list (Reply R)) :=
  let* randomNode := getRandomNode healthy bootstrapNodes draw k in
  Ret (randomRequest randomNode events).

End PeerRequest.

Module P2PHelper.

(** The callback of the request [broadcast] sends to a bootstrap peer.
    [body] is [None] when the response has no body, and its [ip] is
    [None] unless it is a text; [isPrivate] is [ip.isPrivate];
    [publicIp] is [None] while the configuration has none.  The
    result is the public IP of the configuration afterwards, the IP
    just stored when the event [publicIpChanged] is scheduled ([None]
    when it is not), and the answer given to [async.detectLimit]. *)
Definition onAcquireIp (isPrivate : string -> bool) (publicIp : option string)
    (err : bool) (statusCode : Z) (body : option (option string))
    : JsM (option string * option string * bool) :=
  if err || negb (Z.eqb statusCode 200) then Ret (publicIp, None, false)
  else
    match body with
    | None => Throw "TypeError: Cannot read property 'ip' of undefined"
    | Some None => Ret (publicIp, None, false)
    | Some (Some newIp) =>
        if negb (String.eqb newIp "") && negb (isPrivate newIp) then
          match publicIp with
          | Some currentIp =>
              if String.eqb currentIp newIp then Ret (publicIp, None, true)
              else Ret (Some newIp, Some newIp, true)
          | None => Ret (Some newIp, Some newIp, true)
          end
        else Ret (publicIp, None, false)
    end.

End P2PHelper.

(* ===================================================================== *)
(** * Properties *)
(* ===================================================================== *)

Module NumFacts.

Lemma Qltb_lt (x y : Q) : Qltb x y = true <-> (x < y)%Q.
Proof. unfold Qltb, Qlt. apply Z.ltb_lt. Qed.

Lemma Qltb_ge (x y : Q) : Qltb x y = false <-> (y <= x)%Q.
Proof. unfold Qltb, Qle. apply Z.ltb_ge. Qed.

End NumFacts.

Module BufFacts.



Lemma hexDecode_cons (b : byte) (rest : list byte) :
  hexDecode (hexEncode (b :: rest)) = b :: hexDecode (hexEncode rest).
Proof. destruct b; reflexivity. Qed.

Lemma hexDecode_hexEncode (buf : list byte) : hexDecode (hexEncode buf) = buf.
Proof.
  induction buf as [|b rest IH]; [reflexivity|].
  rewrite hexDecode_cons, IH. reflexivity.
Qed.

Lemma hexEncode_inj (a b : list byte) : hexEncode a = hexEncode b -> a = b.
Proof.
  intros H. rewrite <- (hexDecode_hexEncode a), <- (hexDecode_hexEncode b), H. reflexivity.
Qed.

Lemma indexOfFrom_range (t s : string) (i : Z) :
  indexOfFrom t s i = (-1)%Z \/ (i <= indexOfFrom t s i)%Z.
Proof.
  revert i. induction s as [|c s IH]; intros i; cbn [indexOfFrom].
  - destruct (String.prefix t EmptyString); [right; lia | left; reflexivity].
  - destruct (String.prefix t (String c s)); [right; lia|].
    destruct (IH (i + 1)%Z) as [->|H]; [left; reflexivity | right; lia].
Qed.

(** [s.indexOf(t) === 0] says that [s] starts with [t]. *)
Lemma indexOf_zero (s t : string) :
  Z.eqb (indexOf s t) 0 = startsWith s t.
Proof.
  unfold indexOf, startsWith. destruct s as [|c s]; cbn [indexOfFrom].
  - destruct (String.prefix t EmptyString); reflexivity.
  - destruct (String.prefix t (String c s)); [reflexivity|].
    destruct (indexOfFrom_range t s (0 + 1)) as [->|H]; [reflexivity|].
    apply Z.eqb_neq. lia.
Qed.

End BufFacts.

Module ConsensusFacts.
Import Consensus NumFacts BufFacts.

Section WithPlatform.
Variable P : Platform.

Lemma verifyVote_ret (height : Z) (id : string) (item : VoteItem.t) :
  verifyVote P height id item =
  Ret (match verifyVote_body P height id item with Ret b => b | Throw _ => false end).
Proof. unfold verifyVote, try_catch. now destruct (verifyVote_body P height id item). Qed.

Lemma keySeen_insert (m : gmap string bool) (k k' : string) :
  keySeen (<[k:=true]> m) k' = if decide (k = k') then true else keySeen m k'.
Proof.
  unfold keySeen. rewrite lookup_insert. destruct (decide (k = k')); reflexivity.
Qed.

Lemma keySeen_insert_mono (m : gmap string bool) (k k' : string) :
  keySeen m k' = true -> keySeen (<[k:=true]> m) k' = true.
Proof. rewrite keySeen_insert. destruct (decide (k = k')); auto. Qed.

(** The three ways a turn of the loop can end. *)
Lemma addItem_cases (v : Votes.t) (item : VoteItem.t) (s : State) :
  (keySeen (votesKeySet s) (VoteItem.key item) = true /\ addItem P v item s = Ret s)
  \/ (keySeen (votesKeySet s) (VoteItem.key item) = false
      /\ verifyVote P (Votes.height v) (Votes.id v) item = Ret false
      /\ addItem P v item s = Ret s)
  \/ (keySeen (votesKeySet s) (VoteItem.key item) = false
      /\ verifyVote P (Votes.height v) (Votes.id v) item = Ret true
      /\ exists acc, addItem P v item s =
           Ret {| pendingBlock := pendingBlock s;
                  pendingVotes := Some acc;
                  votesKeySet := <[VoteItem.key item := true]> (votesKeySet s) |}
         /\ sigKeys (Some acc) = sigKeys (pendingVotes s) ++ [VoteItem.key item]).
Proof.
  unfold addItem.
  destruct (keySeen (votesKeySet s) (VoteItem.key item)) eqn:Hseen; [left; auto | right].
  rewrite verifyVote_ret.
  destruct (verifyVote_body P (Votes.height v) (Votes.id v) item) as [[|]|e]; simpl.
  - right. repeat split; auto. eexists. split; [reflexivity|].
    simpl. rewrite map_app. simpl. destruct (pendingVotes s); reflexivity.
  - left. auto.
  - left. auto.
Qed.

Lemma addItem_total (v : Votes.t) (item : VoteItem.t) (s : State) :
  exists s', addItem P v item s = Ret s'
    /\ pendingBlock s' = pendingBlock s
    /\ (forall k, keySeen (votesKeySet s) k = true -> keySeen (votesKeySet s') k = true)
    /\ (keySeen (votesKeySet s') (VoteItem.key item) = true
        \/ verifyVote P (Votes.height v) (Votes.id v) item = Ret false).
Proof.
  destruct (addItem_cases v item s) as [[Hs ->]|[(Hs & Hv & ->)|(Hs & Hv & acc & -> & _)]].
  - exists s. auto.
  - exists s. auto.
  - eexists. split; [reflexivity|]. simpl. repeat split.
    + intros k. apply keySeen_insert_mono.
    + left. rewrite keySeen_insert. destruct (decide _); congruence.
Qed.

Lemma addItems_total (v : Votes.t) (items : list VoteItem.t) (s : State) :
  exists s', addItems P v items s = Ret s'
    /\ pendingBlock s' = pendingBlock s
    /\ (forall k, keySeen (votesKeySet s) k = true -> keySeen (votesKeySet s') k = true)
    /\ (forall item, In item items ->
          keySeen (votesKeySet s') (VoteItem.key item) = true
          \/ verifyVote P (Votes.height v) (Votes.id v) item = Ret false).
Proof.
  revert s. induction items as [|item rest IH]; intros s; simpl.
  - exists s. repeat split; auto; intros ? [].
  - destruct (addItem_total v item s) as (s1 & -> & Hb1 & Hmono1 & Hitem). simpl.
    destruct (IH s1) as (s2 & -> & Hb2 & Hmono2 & Hrest).
    exists s2. repeat split; [congruence | auto |].
    intros it [<-|Hin]; [|auto].
    destruct Hitem as [Hseen|Hrej]; auto.
Qed.

(** A pass over items that are all recorded or rejected changes nothing. *)
Lemma addItems_fixed (v : Votes.t) (items : list VoteItem.t) (s : State) :
  (forall item, In item items ->
     keySeen (votesKeySet s) (VoteItem.key item) = true
     \/ verifyVote P (Votes.height v) (Votes.id v) item = Ret false) ->
  addItems P v items s = Ret s.
Proof.
  induction items as [|item rest IH]; intros H; simpl; [reflexivity|].
  assert (Hhere : addItem P v item s = Ret s).
  { destruct (addItem_cases v item s) as [[_ ?]|[(_ & _ & ?)|(Hs & Hv & _)]]; auto.
    destruct (H item (or_introl eq_refl)); congruence. }
  rewrite Hhere. simpl. apply IH. intros it Hin. apply H. now right.
Qed.

Lemma addPendingVotes_total (v : Votes.t) (s : State) :
  exists s', addPendingVotes P v s = Ret (pendingVotes s', s')
    /\ pendingBlock s' = pendingBlock s.
Proof.
  unfold addPendingVotes. destruct (pendingBlock s) as [b|] eqn:Hb.
  - destruct (_ || _).
    + exists s. auto.
    + destruct (addItems_total v (Votes.signatures v) s) as (s' & -> & Hb' & _).
      exists s'. simpl. split; congruence.
  - exists s. auto.
Qed.

(** Feeding back the accumulator itself: every item is already recorded,
    so nothing is pushed while its own array is walked. *)
Lemma addItems_own_accumulator (v acc : Votes.t) (s : State) :
  keysConsistent s -> pendingVotes s = Some acc ->
  addItems P v (Votes.signatures acc) s = Ret s.
Proof.
  intros (Hdom & Htrue & _) Hacc. apply addItems_fixed. intros item Hin. left.
  assert (Hk : VoteItem.key item ∈ dom (votesKeySet s)).
  { rewrite Hdom, Hacc. simpl. apply elem_of_list_to_set, list_elem_of_In.
    now apply in_map. }
  apply elem_of_dom in Hk as [b Hb]. unfold keySeen. rewrite Hb.
  apply (Htrue _ _ Hb).
Qed.

Lemma addItem_consistent (v : Votes.t) (item : VoteItem.t) (s s' : State) :
  keysConsistent s -> addItem P v item s = Ret s' -> keysConsistent s'.
Proof.
  intros (Hdom & Htrue & Hnd) Hadd.
  destruct (addItem_cases v item s) as [[_ E]|[(_ & _ & E)|(Hs & _ & acc & E & Hkeys)]];
    rewrite E in Hadd; inversion Hadd; subst s'; clear Hadd E; [repeat split; auto ..|].
  assert (Hfresh : votesKeySet s !! VoteItem.key item = None).
  { unfold keySeen in Hs. destruct (votesKeySet s !! VoteItem.key item) as [b|] eqn:Hl; auto.
    rewrite (Htrue _ _ Hl) in Hs. discriminate. }
  assert (Hnotin : VoteItem.key item ∉ sigKeys (pendingVotes s)).
  { intros Hin. apply not_elem_of_dom in Hfresh. apply Hfresh. rewrite Hdom.
    now apply elem_of_list_to_set. }
  unfold keysConsistent; cbn [votesKeySet pendingVotes]. rewrite Hkeys. repeat split.
  - rewrite dom_insert_L, Hdom, list_to_set_app_L. simpl.
    rewrite (right_id_L ∅ (∪)). apply (comm_L (∪)).
  - intros k b. rewrite lookup_insert. destruct (decide _); [congruence | apply Htrue].
  - apply NoDup_app. repeat split; auto.
    + intros x Hx Hx'. apply list_elem_of_singleton in Hx'. now subst.
    + apply NoDup_singleton.
Qed.

Lemma addItems_consistent (v : Votes.t) (items : list VoteItem.t) (s s' : State) :
  keysConsistent s -> addItems P v items s = Ret s' -> keysConsistent s'.
Proof.
  revert s. induction items as [|item rest IH]; intros s Hinv; simpl.
  - intros [= <-]. exact Hinv.
  - destruct (addItem_total v item s) as (s1 & E & _). rewrite E. simpl.
    apply IH. eapply addItem_consistent; eauto.
Qed.

Lemma initial_consistent : keysConsistent initial.
Proof.
  unfold keysConsistent, initial; simpl. repeat split.
  - intros k b. rewrite lookup_empty. discriminate.
  - constructor.
Qed.

Lemma runOp_consistent (o : Op) (s : State) :
  keysConsistent s -> exists s', runOp P o s = Ret s' /\ keysConsistent s'.
Proof.
  intros Hinv. destruct o as [b| |v]; simpl.
  - eexists. split; [reflexivity|]. apply initial_consistent.
  - eexists. split; [reflexivity|]. apply initial_consistent.
  - unfold addPendingVotes. destruct (pendingBlock s) as [b|]; [|exists s; auto].
    destruct (_ || _); [exists s; auto|].
    destruct (addItems_total v (Votes.signatures v) s) as (s' & E & _).
    rewrite E. simpl. exists s'. split; [reflexivity|].
    eapply addItems_consistent; eauto.
Qed.

Lemma run_consistent (ops : list Op) (s : State) :
  keysConsistent s -> exists s', run P ops s = Ret s' /\ keysConsistent s'.
Proof.
  revert s. induction ops as [|o rest IH]; intros s Hinv; simpl.
  - exists s. auto.
  - destruct (runOp_consistent o s Hinv) as (s1 & -> & Hinv1). simpl. now apply IH.
Qed.

Lemma two_thirds_lt (D n : Z) :
  (inject_Z D * 2 / 3 < inject_Z n)%Q <-> (2 * D < 3 * n)%Z.
Proof. unfold Qlt, Qdiv, Qmult, Qinv, inject_Z; simpl. lia. Qed.

Lemma hasEnoughVotes_array (fields : list (string * JsVal)) (l : list JsVal) :
  assoc "signatures" fields = Some (JArray l) ->
  hasEnoughVotes P (JObject fields)
  = Ret (JBool (Qltb (inject_Z (slots_delegates P) * 2 / 3)
                     (inject_Z (Z.of_nat (List.length l))))).
Proof. intros H. unfold hasEnoughVotes. simpl. rewrite H. reflexivity. Qed.

(** C1. For a votes object whose [signatures] is an array,
    [hasEnoughVotes] returns the boolean [true] exactly when the number
    of signatures is strictly greater than [2*D/3] (equivalently, than
    its integer part), with [D = slots.delegates]; with [D = 101], 67
    signatures give [false] and 68 give [true]. *)
Theorem hasEnoughVotes_threshold (fields : list (string * JsVal)) (l : list JsVal) :
  assoc "signatures" fields = Some (JArray l) ->
  exists b : bool,
    hasEnoughVotes P (JObject fields) = Ret (JBool b)
    /\ (b = true <->
        (inject_Z (slots_delegates P) * 2 / 3 < inject_Z (Z.of_nat (List.length l)))%Q)
    /\ (b = true <-> (Z.of_nat (List.length l) > 2 * slots_delegates P / 3)%Z)
    /\ (slots_delegates P = 101%Z -> List.length l = 67%nat -> b = false)
    /\ (slots_delegates P = 101%Z -> List.length l = 68%nat -> b = true).
Proof.
  intros H. eexists. split; [apply (hasEnoughVotes_array fields l H)|].
  set (D := slots_delegates P). set (n := Z.of_nat (List.length l)).
  assert (Hiff : Qltb (inject_Z D * 2 / 3) (inject_Z n) = true <-> (2 * D < 3 * n)%Z).
  { rewrite Qltb_lt. apply two_thirds_lt. }
  repeat split.
  - intros Hb. apply Qltb_lt. exact Hb.
  - intros Hlt. apply Qltb_lt. exact Hlt.
  - intros Hb. apply Hiff in Hb. Z.div_mod_to_equations. lia.
  - intros Hgt. apply Hiff. Z.div_mod_to_equations. lia.
  - intros HD Hn. apply not_true_is_false. rewrite Hiff. subst D n. lia.
  - intros HD Hn. apply Hiff. subst D n. lia.
Qed.

Lemma hasEnoughVotes_falsy (votes : JsVal) :
  (truthy votes = false
   \/ exists sigs, getProp votes "signatures" = Ret sigs /\ truthy sigs = false) ->
  exists r, hasEnoughVotes P votes = Ret r /\ truthy r = false.
Proof.
  unfold hasEnoughVotes, js_and. destruct (truthy votes) eqn:Hv.
  - intros [Hfalse|(sigs & -> & Hs)]; [discriminate|]. simpl. rewrite Hs. eauto.
  - intros _. eauto.
Qed.

Lemma hasEnoughVotesRemote_falsy (votes : JsVal) :
  (truthy votes = false
   \/ exists sigs, getProp votes "signatures" = Ret sigs /\ truthy sigs = false) ->
  exists r, hasEnoughVotesRemote P votes = Ret r /\ truthy r = false.
Proof.
  unfold hasEnoughVotesRemote, js_and. destruct (truthy votes) eqn:Hv.
  - intros [Hfalse|(sigs & -> & Hs)]; [discriminate|]. simpl. rewrite Hs. eauto.
  - intros _. eauto.
Qed.

(** C10 (as amended). When [votes] is null or undefined (or any other
    falsy value), or its [signatures] property is absent or falsy,
    [hasEnoughVotes] and [hasEnoughVotesRemote] both return a falsy
    value instead of throwing. *)
Theorem hasEnoughVotes_guard_falsy (votes : JsVal) :
  (truthy votes = false
   \/ exists sigs, getProp votes "signatures" = Ret sigs /\ truthy sigs = false) ->
  exists r r', hasEnoughVotes P votes = Ret r /\ truthy r = false
    /\ hasEnoughVotesRemote P votes = Ret r' /\ truthy r' = false.
Proof.
  intros Hcase.
  destruct (hasEnoughVotes_falsy votes Hcase) as (r & E & Hr).
  destruct (hasEnoughVotesRemote_falsy votes Hcase) as (r' & E' & Hr').
  exists r, r'. auto.
Qed.

Lemma maskFrom_app (n : nat) (pre suf : list byte) :
  (n <= List.length suf)%nat ->
  maskFrom (pre ++ suf) (List.length pre) n
  = Ret (pre ++ map and0x77 (take n suf) ++ drop n suf).
Proof.
  revert pre suf. induction n as [|n IH]; intros pre suf Hlen; simpl.
  - rewrite drop_0. reflexivity.
  - destruct suf as [|v suf]; simpl in Hlen; [lia|].
    unfold readUInt8, writeUInt8. rewrite list_lookup_middle by reflexivity. simpl.
    rewrite insert_app_r_alt by lia. rewrite Nat.sub_diag. simpl.
    replace (pre ++ and0x77 v :: suf) with ((pre ++ [and0x77 v]) ++ suf)
      by (rewrite <- app_assoc; reflexivity).
    replace (S (List.length pre)) with (List.length (pre ++ [and0x77 v]))
      by (rewrite length_app; simpl; lia).
    rewrite IH by lia. rewrite <- app_assoc. reflexivity.
Qed.


Lemma mask_length (n : nat) (buf : list byte) :
  List.length (mask n buf) = List.length buf.
Proof. unfold mask. rewrite length_app, length_map, length_take, length_drop. lia. Qed.






(** C7. Signature verification does not let an exception escape:
    [verifyVote] always returns a boolean, and it is [false] whenever
    its [try] block throws (malformed keys or signatures included); the
    callback [acceptPropose] hands to [verifyPOW] always returns, and an
    exception in its signature check reaches [cb] as the error
    "Verify signature exception: ...". *)
Theorem signature_checks_never_throw :
  (forall height id item, exists b : bool, verifyVote P height id item = Ret b)
  /\ (forall height id item e,
        verifyVote_body P height id item = Throw e ->
        verifyVote P height id item = Ret false)
  /\ (forall propose pow, exists r, acceptPropose_cb P propose pow = Ret r)
  /\ (forall propose e,
        verifySignature_body P propose = Throw e ->
        acceptPropose_cb P propose (CbOk true)
        = Ret (CbErr ("Verify signature exception: " ++ e)%string))
  /\ (forall propose e,
        verifyPOW P propose = Ret (CbOk true) ->
        verifySignature_body P propose = Throw e ->
        acceptPropose P propose
        = Ret (CbErr ("Verify signature exception: " ++ e)%string)).
Proof.
  repeat split.
  - intros height id item. rewrite verifyVote_ret. eauto.
  - intros height id item e H. rewrite verifyVote_ret, H. reflexivity.
  - intros propose [err|[|]]; simpl; eauto.
    unfold try_catch. destruct (verifySignature_body P propose); eauto.
  - intros propose e H. simpl. rewrite H. reflexivity.
  - intros propose e Hpow H. unfold acceptPropose. rewrite Hpow. simpl.
    rewrite H. reflexivity.
Qed.

(** C3. With no pending block, or a vote whose height or id differs from
    the pending block's, [addPendingVotes] returns the current
    accumulator without throwing and leaves the whole state
    ([pendingBlock], [pendingVotes], [votesKeySet]) as it was. *)
Theorem addPendingVotes_stale_noop (v : Votes.t) (s : State) :
  (pendingBlock s = None
   \/ exists b, pendingBlock s = Some b
        /\ (Block.height b <> Votes.height v \/ Block.id b <> Votes.id v)) ->
  addPendingVotes P v s = Ret (pendingVotes s, s).
Proof.
  unfold addPendingVotes. intros [->|(b & -> & Hne)]; [reflexivity|].
  destruct (Z.eqb_spec (Block.height b) (Votes.height v)) as [Hh|Hh]; simpl; [|reflexivity].
  destruct (String.eqb_spec (Block.id b) (Votes.id v)) as [Hi|Hi]; simpl; [|reflexivity].
  destruct Hne; contradiction.
Qed.

(** Keys are told apart as text, whatever [ed.Verify] is: when a vote
    for the block just set carries a signature that verifies under the
    key text [k] and the same signature under another text [k'] of the
    same public key, both items are accumulated. *)
Lemma respelled_key_accumulates (b : Block.t) (s : State) (k k' sg : string) (timestamp : Z) :
  hexDecode k = hexDecode k' -> k <> k' ->
  keySeen ∅ k = false -> keySeen ∅ k' = false ->
  verifyVote P (Block.height b) (Block.id b) {| VoteItem.key := k; VoteItem.sig := sg |}
  = Ret true ->
  exists acc s',
    addPendingVotes P
      {| Votes.height := Block.height b; Votes.id := Block.id b;
         Votes.signatures := [ {| VoteItem.key := k; VoteItem.sig := sg |};
                               {| VoteItem.key := k'; VoteItem.sig := sg |} ];
         Votes.timestamp := timestamp |}
      (setPendingBlock b s)
    = Ret (Some acc, s')
    /\ Votes.signatures acc = [ {| VoteItem.key := k; VoteItem.sig := sg |};
                                {| VoteItem.key := k'; VoteItem.sig := sg |} ]
    /\ signerKeys (Some acc) = [hexDecode k; hexDecode k].
Proof.
  intros Hsame Hdiff Hk Hk' Hver.
  assert (Hver' : verifyVote P (Block.height b) (Block.id b)
                    {| VoteItem.key := k'; VoteItem.sig := sg |} = Ret true).
  { rewrite <- Hver. unfold verifyVote, verifyVote_body. simpl. rewrite Hsame. reflexivity. }
  set (first := {| VoteItem.key := k; VoteItem.sig := sg |}) in *.
  set (second := {| VoteItem.key := k'; VoteItem.sig := sg |}) in *.
  set (v := {| Votes.height := Block.height b; Votes.id := Block.id b;
               Votes.signatures := [first; second]; Votes.timestamp := timestamp |}).
  set (s1 := {| pendingBlock := Some b;
                pendingVotes := Some {| Votes.height := Block.height b; Votes.id := Block.id b;
                                        Votes.signatures := [first];
                                        Votes.timestamp := timestamp |};
                votesKeySet := <[k:=true]> ∅ |}).
  assert (H1 : addItem P v first (setPendingBlock b s) = Ret s1).
  { unfold addItem. cbn [setPendingBlock votesKeySet VoteItem.key first].
    rewrite Hk. cbn [Votes.height Votes.id v]. rewrite Hver. reflexivity. }
  assert (H2 : exists s2, addItem P v second s1 = Ret s2
                 /\ Votes.signatures <$> pendingVotes s2 = Some [first; second]).
  { unfold addItem. cbn [s1 votesKeySet VoteItem.key second]. rewrite keySeen_insert.
    destruct (decide (k = k')) as [Heq|_]; [contradiction|].
    rewrite Hk'. cbn [Votes.height Votes.id v]. rewrite Hver'.
    eexists. split; reflexivity. }
  destruct H2 as (s2 & H2 & Hsigs).
  unfold addPendingVotes. cbn [setPendingBlock pendingBlock Votes.height Votes.id v].
  rewrite Z.eqb_refl, String.eqb_refl. cbn [negb orb].
  change (Votes.signatures v) with [first; second]. cbn [addItems].
  rewrite H1. cbn [bind]. rewrite H2. cbn [bind].
  destruct (pendingVotes s2) as [acc|]; [|discriminate Hsigs].
  injection Hsigs as Hsigs. exists acc, s2. split; [reflexivity|]. split; [exact Hsigs|].
  unfold signerKeys, sigKeys. rewrite Hsigs. simpl. rewrite Hsame. reflexivity.
Qed.


(** C5. After any sequence of [setPendingBlock], [clearState] and
    [addPendingVotes] from the initial state, the keys of [votesKeySet]
    are exactly the [key] fields of the signatures held in
    [pendingVotes] (none when [pendingVotes] is null). *)
Theorem votesKeySet_matches_signatures (ops : list Op) :
  exists s, run P ops initial = Ret s
    /\ dom (votesKeySet s) = (list_to_set (sigKeys (pendingVotes s)) : gset string).
Proof.
  destruct (run_consistent ops initial initial_consistent) as (s & E & Hdom & _).
  exists s. auto.
Qed.

(** C6. [setPendingBlock(b)] installs [b] and drops every accumulated
    vote: afterwards [pendingBlock] is [b], [pendingVotes] is null and
    [votesKeySet] is empty, whatever the state before. *)
Theorem setPendingBlock_resets (b : Block.t) (s : State) :
  pendingBlock (setPendingBlock b s) = Some b
  /\ pendingVotes (setPendingBlock b s) = None
  /\ votesKeySet (setPendingBlock b s) = ∅.
Proof. repeat split. Qed.

End WithPlatform.

Lemma hasEnoughVotes_threshold_witness :
  exists b : bool,
    hasEnoughVotes Demo.platform (JObject [("signatures", JArray (repeat JNull 68))])
    = Ret (JBool b)
    /\ (b = true <-> (inject_Z 101 * 2 / 3 < inject_Z (Z.of_nat 68))%Q)
    /\ (b = true <-> (Z.of_nat 68 > 2 * 101 / 3)%Z)
    /\ (101%Z = 101%Z -> 68%nat = 67%nat -> b = false)
    /\ (101%Z = 101%Z -> 68%nat = 68%nat -> b = true).
Proof.
  apply (hasEnoughVotes_threshold Demo.platform
           [("signatures", JArray (repeat JNull 68))] (repeat JNull 68)).
  reflexivity.
Defined.

Lemma hasEnoughVotes_guard_falsy_witness :
  exists r r',
    hasEnoughVotes Demo.platform (JObject [("height", of_nat 10)]) = Ret r
    /\ truthy r = false
    /\ hasEnoughVotesRemote Demo.platform (JObject [("height", of_nat 10)]) = Ret r'
    /\ truthy r' = false.
Proof.
  apply (hasEnoughVotes_guard_falsy Demo.platform (JObject [("height", of_nat 10)])).
  right. exists JUndefined. split; reflexivity.
Defined.

(** C10, as stated, fails on a votes object whose [signatures] is a
    string: it is truthy and has a [length], so the comparison is made
    and can succeed. *)
Lemma hasEnoughVotes_string_signatures :
  getProp (JObject [("signatures", JString "abcdef")]) "signatures" = Ret (JString "abcdef")
  /\ hasEnoughVotesRemote Demo.platform (JObject [("signatures", JString "abcdef")])
     = Ret (JBool true)
  /\ hasEnoughVotes Demo.platform
       (JObject [("signatures",
                  JString "0123456789012345678901234567890123456789012345678901234567890123456789")])
     = Ret (JBool true)
  /\ truthy (JBool true) = true.
Proof. repeat split. Qed.




Lemma signature_checks_never_throw_witness :
  acceptPropose Demo.platform Demo.proposeBadKey
  = Ret (CbErr "Verify signature exception: Error: argument publicKey must be a buffer of 32 bytes").
Proof.
  apply (proj2 (proj2 (proj2 (proj2 (signature_checks_never_throw Demo.platform))))
           Demo.proposeBadKey); vm_compute; reflexivity.
Defined.

Lemma addPendingVotes_stale_noop_witness :
  addPendingVotes Demo.platform (Demo.votes "B" [Demo.item "03"]) Demo.pending
  = Ret (pendingVotes Demo.pending, Demo.pending).
Proof.
  apply addPendingVotes_stale_noop. right. exists Demo.block.
  split; [reflexivity|]. right. discriminate.
Defined.

Example demo_scenario :
  run Demo.platform
    [OpSetPendingBlock Demo.block;
     OpAddPendingVotes (Demo.votes "A" [Demo.item "01"; Demo.item "02"; Demo.item ""; Demo.item "toString"]);
     OpAddPendingVotes (Demo.votes "B" [Demo.item "03"]);
     OpAddPendingVotes (Demo.votes "A" [Demo.item "02"; Demo.item "04"])] initial
  = Ret {| pendingBlock := Some Demo.block;
           pendingVotes := Some (Demo.votes "A" [Demo.item "01"; Demo.item "02"; Demo.item "04"]);
           votesKeySet := <["04":=true]> (<["02":=true]> (<["01":=true]> ∅)) |}.
Proof. vm_compute. reflexivity. Qed.

(** Keys are compared as text: two spellings of one public key are two
    keys for the aggregator. *)
Example spellings_are_distinct_keys :
  run Demo.platform
    [OpSetPendingBlock Demo.block;
     OpAddPendingVotes (Demo.votes "A" [Demo.item "0a"; Demo.item "0A"; Demo.item "0a"])] initial
  = Ret {| pendingBlock := Some Demo.block;
           pendingVotes := Some (Demo.votes "A" [Demo.item "0a"; Demo.item "0A"]);
           votesKeySet := <["0A":=true]> (<["0a":=true]> ∅) |}.
Proof. vm_compute. reflexivity. Qed.

(** Five signatures, then four more of which one repeats a signer: eight
    are held, the repeated signer once; two thirds of 101 are not
    reached. *)
Example duplicate_signer_scenario :
  exists s,
    run Demo.platform
      [OpSetPendingBlock Demo.block;
       OpAddPendingVotes (Demo.votes "A" (map Demo.item ["01"; "02"; "03"; "04"; "05"]));
       OpAddPendingVotes (Demo.votes "A" (map Demo.item ["03"; "06"; "07"; "08"]))] initial
    = Ret s
    /\ sigKeys (pendingVotes s) = ["01"; "02"; "03"; "04"; "05"; "06"; "07"; "08"]
    /\ hasEnoughVotes Demo.platform (default JNull (jsOfVotes <$> pendingVotes s))
       = Ret (JBool false)
    /\ hasEnoughVotesRemote Demo.platform (default JNull (jsOfVotes <$> pendingVotes s))
       = Ret (JBool true).
Proof. eexists. split; [vm_compute; reflexivity|]. repeat split. Qed.

(** The stand-in digest aside, [SHA256.digest] is SHA-256: the test
    vectors of one and of two blocks. *)
Example sha256_vectors :
  hexEncode (SHA256.digest (utf8 "abc"))
  = "ba7816bf8f01cfea414140de5dae2223b00361a396177a9cb410ff61f20015ad"
  /\ hexEncode (SHA256.digest (utf8 "abcdbcdecdefdefgefghfghighijhijkijkljklmklmnlmnomnopnopq"))
     = "248d6a61d20638b8e5c026930c3e6039a33ce45964ff2167f6ecedd419db06c1".
Proof. split; vm_compute; reflexivity. Qed.

(** The text of a nonce that is not a safe integer is not its decimal
    writing. *)
Example nonce_text_above_2_53 :
  nonceToString (2 ^ 63) = "9223372036854776000"
  /\ nonceToString 9007199254740993 = "9007199254740992"
  /\ nonceToString 4242 = "4242".
Proof. repeat split; vm_compute; reflexivity. Qed.

(** A [length] that cannot be converted to a primitive makes the
    comparison throw. *)
Example length_conversion_throws :
  hasEnoughVotes Demo.platform
    (JObject [("signatures",
               JObject [("length", JObject [("toString", of_nat 1); ("valueOf", of_nat 1)])])])
  = Throw "TypeError: Cannot convert object to primitive value".
Proof. reflexivity. Qed.

Example demo_pow : verifyPOW Demo.platform Demo.propose = Ret (CbOk true)
  /\ acceptPropose Demo.platform Demo.propose = Ret (CbOk tt).
Proof. split; vm_compute; reflexivity. Qed.

End ConsensusFacts.

Module PeerFacts.
Import Peer NumFacts.

Section WithPlatform.
Variable P : Platform.

Lemma compareVersions_three (a b c x y z : Q) :
  compareVersions [Num a; Num b; Num c] [Num x; Num y; Num z] = true
  <-> lexGe [a; b; c] [x; y; z].
Proof.
  simpl. unfold num_gt, num_lt.
  destruct (Qltb a x) eqn:Hax; [apply Qltb_lt in Hax | apply Qltb_ge in Hax].
  { split; [discriminate|]. unfold Qlt, Qeq in *. intros [H|[H _]]; lia. }
  destruct (Qltb x a) eqn:Hxa; [apply Qltb_lt in Hxa | apply Qltb_ge in Hxa].
  { split; auto. }
  destruct (Qltb b y) eqn:Hby; [apply Qltb_lt in Hby | apply Qltb_ge in Hby].
  { split; [discriminate|]. unfold Qlt, Qle, Qeq in *. intros [H|[_ [H|[H _]]]]; lia. }
  destruct (Qltb y b) eqn:Hyb; [apply Qltb_lt in Hyb | apply Qltb_ge in Hyb].
  { split; auto. intros _. right. split; [unfold Qle, Qeq in *; lia | auto]. }
  destruct (Qltb c z) eqn:Hcz; [apply Qltb_lt in Hcz | apply Qltb_ge in Hcz].
  { split; [discriminate|]. unfold Qlt, Qle, Qeq in *.
    intros [H|[_ [H|[_ [H|[H _]]]]]]; lia. }
  split; [|intros _; destruct (Qltb z c); reflexivity].
  intros _. right. split; [unfold Qle, Qeq in *; lia|].
  right. split; [unfold Qle, Qeq in *; lia|].
  destruct (Qltb z c) eqn:Hzc; [apply Qltb_lt in Hzc | apply Qltb_ge in Hzc].
  - left. exact Hzc.
  - right. split; [unfold Qle, Qeq in *; lia | exact I].
Qed.

(** C8. A version that does not split into exactly three components is
    compatible; a triplet of numeric components [a.b.c] is compatible
    exactly when [(a,b,c)] is lexicographically at least [(1,3,1)] on
    mainnet and [(1,2,3)] on testnet. *)
Theorem isCompatible_spec (version : string) :
  (List.length (split "." version) <> 3%nat -> isCompatible P version = true)
  /\ (forall a b c : Q,
        map (Number P) (split "." version) = [Num a; Num b; Num c] ->
        (netVersion P = "mainnet" ->
           (isCompatible P version = true <-> lexGe [a; b; c] [1; 3; 1]%Q))
        /\ (netVersion P = "testnet" ->
           (isCompatible P version = true <-> lexGe [a; b; c] [1; 2; 3]%Q))).
Proof.
  split.
  - intros Hlen. unfold isCompatible. rewrite length_map.
    destruct (Nat.eqb_spec (List.length (split "." version)) 3); [contradiction | reflexivity].
  - intros a b c Hnums. unfold isCompatible, compatibleVersion. rewrite Hnums.
    split; intros ->; cbn -[compareVersions]; apply compareVersions_three.
Qed.

End WithPlatform.

Lemma isCompatible_spec_witness :
  isCompatible Demo.platform "1.3.0" = true <-> lexGe [1; 3; 0]%Q [1; 3; 1]%Q.
Proof.
  apply (proj2 (isCompatible_spec Demo.platform "1.3.0") 1 3 0)%Q; reflexivity.
Defined.

Example isCompatible_demo :
  isCompatible Demo.platform "1.3.0" = false
  /\ isCompatible Demo.platform "1.3.1" = true
  /\ isCompatible Demo.platform "2.0.0" = true
  /\ isCompatible Demo.platform "1.3" = true
  /\ isCompatible Demo.platform "1.2.3.4" = true.
Proof. repeat split. Qed.

(** What a tick hands to [dht.addNode]: the seeds absent from the table
    whose host differs from the local host and whose port differs from
    the local port. *)
Lemma reconnectTick_In (host0 : string) (port0 : Z) (bootstrapNodes allNodes : list Node)
    (n : Node) :
  In n (reconnectTick host0 port0 bootstrapNodes allNodes)
  <-> In n bootstrapNodes /\ isInDht allNodes n = false
      /\ host n <> host0 /\ port n <> port0.
Proof.
  unfold reconnectTick. rewrite !filter_In, !andb_true_iff, !negb_true_iff.
  rewrite Z.eqb_neq. destruct (String.eqb_spec (host n) host0); intuition congruence.
Qed.

Lemma reconnectSpec_In (host0 : string) (port0 : Z) (bootstrapNodes allNodes : list Node)
    (n : Node) :
  In n (reconnectSpec host0 port0 bootstrapNodes allNodes)
  <-> In n bootstrapNodes /\ isInDht allNodes n = false
      /\ ~ (host n = host0 /\ port n = port0).
Proof.
  unfold reconnectSpec. rewrite !filter_In, !negb_true_iff, andb_false_iff.
  rewrite Z.eqb_neq. destruct (String.eqb_spec (host n) host0); intuition congruence.
Qed.

(** The tick never re-inserts a seed the rule excludes; what it misses
    are the absent seeds that share the local host or the local port. *)
Lemma reconnectTick_incl (host0 : string) (port0 : Z) (bootstrapNodes allNodes : list Node) :
  incl (reconnectTick host0 port0 bootstrapNodes allNodes)
       (reconnectSpec host0 port0 bootstrapNodes allNodes).
Proof.
  intros n. rewrite reconnectTick_In, reconnectSpec_In. intuition congruence.
Qed.

(** C9 fails on the code: a seed on another host that shares the local
    port is absent from the table and is not the node itself, yet the
    tick does not re-insert it. *)
Theorem reconnectTick_drops_same_port_seed :
  reconnectTick "10.0.0.1" 5000 [Demo.seed] [] = []
  /\ reconnectSpec "10.0.0.1" 5000 [Demo.seed] [] = [Demo.seed].
Proof. split; reflexivity. Qed.

End PeerFacts.

(* ===================================================================== *)
(** * Further properties of the consensus data plane *)
(* ===================================================================== *)

Module StrFacts.

Lemma append_cons (c : ascii) (a b : string) :
  (String c a ++ b)%string = String c (a ++ b)%string.
Proof. reflexivity. Qed.

Lemma append_nil (b : string) : (EmptyString ++ b)%string = b.
Proof. reflexivity. Qed.

Lemma length_append (a b : string) :
  String.length (a ++ b)%string = (String.length a + String.length b)%nat.
Proof.
  induction a as [|c a IH]; [reflexivity|].
  rewrite append_cons. simpl. now rewrite IH.
Qed.

Lemma chars_append (a b : string) :
  list_ascii_of_string (a ++ b)%string = list_ascii_of_string a ++ list_ascii_of_string b.
Proof.
  induction a as [|c a IH]; [reflexivity|].
  rewrite append_cons. simpl. now rewrite IH.
Qed.

Lemma length_zeros (n : nat) : String.length (zeros n) = n.
Proof. induction n; simpl; congruence. Qed.

(** [split] yields one more part than there are separators. *)
Lemma split_length (sep : ascii) (s : string) :
  List.length (split sep s) = S (count_occ ascii_dec (list_ascii_of_string s) sep).
Proof.
  induction s as [|c s IH]; [reflexivity|].
  cbn [split list_ascii_of_string].
  destruct (Ascii.eqb_spec c sep) as [->|Hne].
  - rewrite count_occ_cons_eq by reflexivity. simpl. now rewrite IH.
  - rewrite count_occ_cons_neq by exact Hne.
    destruct (split sep s) as [|h t]; [discriminate IH | exact IH].
Qed.

Lemma length_bits (p : positive) (n : nat) :
  (Zpos p < 2 ^ Z.of_nat n)%Z -> (String.length (bits p) <= n)%nat.
Proof.
  revert n. induction p as [p IH|p IH|]; intros n Hlt; cbn [bits].
  - destruct n as [|n]; [simpl in Hlt; lia|].
    rewrite length_append. simpl. rewrite Nat2Z.inj_succ, Z.pow_succ_r in Hlt by lia.
    specialize (IH n). lia.
  - destruct n as [|n]; [simpl in Hlt; lia|].
    rewrite length_append. simpl. rewrite Nat2Z.inj_succ, Z.pow_succ_r in Hlt by lia.
    specialize (IH n). lia.
  - destruct n as [|n]; [simpl in Hlt; lia | simpl; lia].
Qed.

Lemma chars_bits (p : positive) (c : ascii) :
  In c (list_ascii_of_string (bits p)) -> c = "0"%char \/ c = "1"%char.
Proof.
  induction p as [p IH|p IH|]; cbn [bits]; rewrite ?chars_append, ?in_app_iff; simpl;
    intuition auto.
Qed.

Lemma chars_zeros (n : nat) (c : ascii) :
  In c (list_ascii_of_string (zeros n)) -> c = "0"%char.
Proof. induction n; simpl; intuition auto. Qed.

End StrFacts.

Module DifficultyFacts.
Import Consensus ConsensusExt StrFacts.

Lemma binValueFrom_append (acc : N) (a b : string) :
  binValueFrom acc (a ++ b)%string = binValueFrom (binValueFrom acc a) b.
Proof.
  revert acc. induction a as [|c a IH]; intros acc; [reflexivity|].
  rewrite append_cons. simpl. apply IH.
Qed.

Lemma binValueFrom_bits (acc : N) (p : positive) :
  binValueFrom acc (bits p) = (acc * 2 ^ N.of_nat (String.length (bits p)) + Npos p)%N.
Proof.
  revert acc. induction p as [p IH|p IH|]; intros acc; cbn [bits].
  - rewrite binValueFrom_append, IH, length_append. simpl binValueFrom.
    rewrite Nat.add_1_r, Nat2N.inj_succ, N.pow_succ_r'. lia.
  - rewrite binValueFrom_append, IH, length_append. simpl binValueFrom.
    rewrite Nat.add_1_r, Nat2N.inj_succ, N.pow_succ_r'. lia.
  - simpl. lia.
Qed.

Lemma binValue_toString2 (n : N) : binValue (toString2 n) = n.
Proof.
  destruct n as [|p]; [reflexivity|]. unfold binValue, toString2.
  rewrite binValueFrom_bits. lia.
Qed.

Lemma binValue_zeros (n : nat) (s : string) : binValue (zeros n ++ s)%string = binValue s.
Proof.
  unfold binValue. induction n as [|n IH]; [reflexivity|].
  simpl zeros. rewrite append_cons. simpl. exact IH.
Qed.

Lemma binValueFrom_ones (acc : N) (n : nat) :
  (binValueFrom acc (ones n) + 1 = (acc + 1) * 2 ^ N.of_nat n)%N.
Proof.
  revert acc. induction n as [|n IH]; intros acc.
  - simpl. lia.
  - cbn [ones binValueFrom]. rewrite Ascii.eqb_refl, IH, Nat2N.inj_succ, N.pow_succ_r'. lia.
Qed.

Lemma length_toString2 (n : N) (w : nat) :
  (1 <= w)%nat -> (Z.of_N n < 2 ^ Z.of_nat w)%Z -> (String.length (toString2 n) <= w)%nat.
Proof.
  intros Hw Hlt. destruct n as [|p]; [simpl; lia|].
  apply length_bits. exact Hlt.
Qed.

Lemma chars_toString2 (n : N) (c : ascii) :
  In c (list_ascii_of_string (toString2 n)) -> c = "0"%char \/ c = "1"%char.
Proof.
  destruct n as [|p]; [simpl; intuition auto | apply chars_bits].
Qed.

Section WithPlatform.
Variable P : Platform.

Lemma getAddressIndex_inv (propose : Propose.t) (target : string) :
  getAddressIndex P propose = CbOk target ->
  exists index, getDelegateIndex P propose = CbOk index /\ (0 <= index)%Z
    /\ target = padStart (slots_leading P)
         (if Z.eqb (2 ^ Z.of_nat (slots_leading P) - 1) 0 then "NaN"
          else toString2 (Z.to_N (index mod (2 ^ Z.of_nat (slots_leading P) - 1)))).
Proof.
  unfold getAddressIndex. destruct (getDelegateIndex P propose) as [err|index]; [discriminate|].
  destruct (Z.ltb_spec index 0) as [Hneg|Hpos]; [discriminate|].
  intros [= <-]. exists index. auto.
Qed.

Lemma target_value (propose : Propose.t) (target : string) :
  (1 <= slots_leading P)%nat ->
  getAddressIndex P propose = CbOk target ->
  exists index, getDelegateIndex P propose = CbOk index /\ (0 <= index)%Z
    /\ (0 <= index mod (2 ^ Z.of_nat (slots_leading P) - 1)
         < 2 ^ Z.of_nat (slots_leading P) - 1)%Z
    /\ target = padStart (slots_leading P)
         (toString2 (Z.to_N (index mod (2 ^ Z.of_nat (slots_leading P) - 1))))
    /\ (String.length
          (toString2 (Z.to_N (index mod (2 ^ Z.of_nat (slots_leading P) - 1))))
        <= slots_leading P)%nat
    /\ Z.of_N (binValue target) = (index mod (2 ^ Z.of_nat (slots_leading P) - 1))%Z.
Proof.
  intros HL Hget. destruct (getAddressIndex_inv propose target Hget) as (index & Hidx & Hpos & ->).
  set (L := slots_leading P) in *.
  assert (Hpow : (2 <= 2 ^ Z.of_nat L)%Z).
  { change 2%Z with (2 ^ 1)%Z at 1. apply Z.pow_le_mono_r; lia. }
  destruct (Z.eqb_spec (2 ^ Z.of_nat L - 1) 0) as [Hz|Hnz]; [lia|].
  set (m := (2 ^ Z.of_nat L - 1)%Z) in *.
  assert (Hr : (0 <= index mod m < m)%Z) by (apply Z.mod_pos_bound; lia).
  exists index. repeat split; try lia; try assumption.
  - apply length_toString2; [exact HL|]. rewrite Z2N.id by lia. lia.
  - unfold padStart. rewrite binValue_zeros, binValue_toString2. apply Z2N.id. lia.
Qed.

(** With [slots.leading >= 1] the difficulty string has exactly
    [slots.leading] characters, all "0" or "1"; it denotes the delegate
    index modulo [2^leading - 1], so it is never the all-ones text. *)
Theorem difficulty_shape (propose : Propose.t) (target : string) :
  (1 <= slots_leading P)%nat ->
  getAddressIndex P propose = CbOk target ->
  String.length target = slots_leading P
  /\ (forall c, In c (list_ascii_of_string target) -> c = "0"%char \/ c = "1"%char)
  /\ (exists index, getDelegateIndex P propose = CbOk index /\ (0 <= index)%Z
        /\ Z.of_N (binValue target) = (index mod (2 ^ Z.of_nat (slots_leading P) - 1))%Z)
  /\ target <> ones (slots_leading P).
Proof.
  intros HL Hget.
  destruct (target_value propose target HL Hget) as (index & Hidx & Hpos & Hr & Ht & Hlen & Hval).
  set (L := slots_leading P) in *.
  split; [|split; [|split]].
  - rewrite Ht. unfold padStart. rewrite length_append, length_zeros. lia.
  - intros c. rewrite Ht. unfold padStart. rewrite chars_append, in_app_iff.
    intros [Hc|Hc]; [left; now apply chars_zeros in Hc | now apply chars_toString2 in Hc].
  - exists index. auto.
  - intros Heq. rewrite Heq in Hval.
    pose proof (binValueFrom_ones 0 L) as Hones. fold (binValue (ones L)) in Hones.
    assert (Z.of_N (binValue (ones L)) + 1 = 2 ^ Z.of_nat L)%Z.
    { replace 1%Z with (Z.of_N 1) at 1 by reflexivity. rewrite <- N2Z.inj_add, Hones.
      rewrite N.mul_1_l, N2Z.inj_pow, nat_N_Z. reflexivity. }
    lia.
Qed.

(** Two proposals get the same difficulty string exactly when their
    delegate indexes are congruent modulo [2^leading - 1]. *)
Theorem difficulty_collision (p1 p2 : Propose.t) (t1 t2 : string) (i1 i2 : Z) :
  (1 <= slots_leading P)%nat ->
  getDelegateIndex P p1 = CbOk i1 -> getDelegateIndex P p2 = CbOk i2 ->
  getAddressIndex P p1 = CbOk t1 -> getAddressIndex P p2 = CbOk t2 ->
  (t1 = t2 <->
   (i1 mod (2 ^ Z.of_nat (slots_leading P) - 1)
    = i2 mod (2 ^ Z.of_nat (slots_leading P) - 1))%Z).
Proof.
  intros HL H1 H2 Ht1 Ht2.
  destruct (target_value p1 t1 HL Ht1) as (j1 & Hj1 & _ & _ & Hp1 & _ & Hv1).
  destruct (target_value p2 t2 HL Ht2) as (j2 & Hj2 & _ & _ & Hp2 & _ & Hv2).
  rewrite H1 in Hj1. rewrite H2 in Hj2. injection Hj1 as <-. injection Hj2 as <-.
  split.
  - intros ->. congruence.
  - intros Hmod. rewrite Hp1, Hp2, Hmod. reflexivity.
Qed.

End WithPlatform.

Lemma difficulty_shape_witness :
  String.length "01" = 2%nat
  /\ (forall c, In c (list_ascii_of_string "01") -> c = "0"%char \/ c = "1"%char)
  /\ (exists index,
        getDelegateIndex DemoExt.platformByHeight Demo.propose = CbOk index /\ (0 <= index)%Z
        /\ Z.of_N (binValue "01") = (index mod (2 ^ Z.of_nat 2 - 1))%Z)
  /\ "01" <> ones 2.
Proof.
  apply (difficulty_shape DemoExt.platformByHeight Demo.propose "01"); [simpl; lia | reflexivity].
Defined.

Lemma difficulty_collision_witness :
  "01" = "01" <-> (100 mod (2 ^ Z.of_nat 2 - 1) = 103 mod (2 ^ Z.of_nat 2 - 1))%Z.
Proof.
  apply (difficulty_collision DemoExt.platformByHeight
           Demo.propose (DemoExt.withHeight 103 Demo.propose) "01" "01" 100 103);
    [simpl; lia | reflexivity..].
Defined.

End DifficultyFacts.

Module PowFacts.
Import Consensus ConsensusExt BufFacts StrFacts.

Lemma and0x77_idem (b : byte) : and0x77 (and0x77 b) = and0x77 b.
Proof. destruct b; reflexivity. Qed.

Lemma mask_cons (n : nat) (x : byte) (buf : list byte) :
  mask (S n) (x :: buf) = and0x77 x :: mask n buf.
Proof. reflexivity. Qed.

Lemma mask_idem (n : nat) (buf : list byte) : mask n (mask n buf) = mask n buf.
Proof.
  revert buf. induction n as [|n IH]; intros buf; [reflexivity|].
  destruct buf as [|x buf]; [reflexivity|].
  rewrite !mask_cons, and0x77_idem, IH. reflexivity.
Qed.

(** The first character of a hex text is a hex digit, so the text never
    starts with "NaN". *)
Lemma hexEncode_not_NaN (buf : list byte) : startsWith (hexEncode buf) "NaN" = false.
Proof. destruct buf as [|b rest]; [reflexivity|]. destruct b; reflexivity. Qed.

Section WithPlatform.
Variable P : Platform.

Lemma maskFrom_throw (n : nat) (pre suf : list byte) :
  (List.length suf < n)%nat ->
  maskFrom (pre ++ suf) (List.length pre) n = Throw "RangeError: Index out of range".
Proof.
  revert pre suf. induction n as [|n IH]; intros pre suf Hlen; simpl; [lia|].
  destruct suf as [|v suf]; simpl in Hlen.
  - unfold readUInt8. rewrite lookup_ge_None_2 by (rewrite length_app; simpl; lia).
    reflexivity.
  - unfold readUInt8, writeUInt8. rewrite list_lookup_middle by reflexivity. simpl.
    rewrite insert_app_r_alt by lia. rewrite Nat.sub_diag. simpl.
    replace (pre ++ and0x77 v :: suf) with ((pre ++ [and0x77 v]) ++ suf)
      by (rewrite <- app_assoc; reflexivity).
    replace (S (List.length pre)) with (List.length (pre ++ [and0x77 v]))
      by (rewrite length_app; simpl; lia).
    apply IH. lia.
Qed.

Lemma maskLeading_cases (buf : list byte) :
  maskLeading P buf =
  if le_lt_dec (slots_leading P) (List.length buf)
  then Ret (mask (slots_leading P) buf)
  else Throw "RangeError: Index out of range".
Proof.
  unfold maskLeading. destruct (le_lt_dec _ _) as [Hle|Hlt].
  - apply (ConsensusFacts.maskFrom_app _ [] buf Hle).
  - apply (maskFrom_throw _ [] buf Hlt).
Qed.

(** [getProposeHash] reads the height, id, generator key, timestamp and
    address of a proposal, and nothing else. *)
Lemma getProposeHash_fields (p q : Propose.t) :
  Propose.height p = Propose.height q -> Propose.id p = Propose.id q ->
  Propose.generatorPublicKey p = Propose.generatorPublicKey q ->
  Propose.timestamp p = Propose.timestamp q -> Propose.address p = Propose.address q ->
  getProposeHash P p = getProposeHash P q.
Proof. unfold getProposeHash, proposeHashBytes. intros -> -> -> -> ->. reflexivity. Qed.

Lemma getAddressIndex_index (p q : Propose.t) :
  getDelegateIndex P p = getDelegateIndex P q -> getAddressIndex P p = getAddressIndex P q.
Proof. unfold getAddressIndex. intros ->. reflexivity. Qed.

(** [verifyPOW] in terms of the whole-buffer mask. *)
Lemma verifyPOW_unfold (propose : Propose.t) :
  verifyPOW P propose =
  let* digest := getProposeHash P propose in
  match getAddressIndex P propose with
  | CbErr err => Ret (CbErr err)
  | CbOk target =>
      let cand := sha256 P (utf8 (hexEncode digest ++ nonceToString (Propose.nonce propose))%string) in
      let sub := hexDecode (Propose.hash propose) in
      if le_lt_dec (slots_leading P) (List.length cand) then
        if le_lt_dec (slots_leading P) (List.length sub) then
          Ret (CbOk (String.eqb (hexEncode (mask (slots_leading P) cand))
                                (hexEncode (mask (slots_leading P) sub))
                     && startsWith (hexEncode (mask (slots_leading P) cand)) target))
        else Throw "RangeError: Index out of range"
      else Throw "RangeError: Index out of range"
  end.
Proof.
  unfold verifyPOW, entanmoPoWVerifier, proposePoWHashConvert.
  destruct (getProposeHash P propose) as [digest|e]; simpl; [|reflexivity].
  destruct (getAddressIndex P propose) as [err|target]; [reflexivity|].
  rewrite !maskLeading_cases.
  destruct (le_lt_dec _ _); simpl; [|reflexivity].
  destruct (le_lt_dec _ _); simpl; [|reflexivity].
  rewrite indexOf_zero. destruct (_ && _); reflexivity.
Qed.

(** With [slots.leading = 0] the difficulty string is the text "NaN",
    which no hex text starts with: [verifyPOW] never reports success and
    [acceptPropose] never accepts. *)
Theorem leading_zero_rejects_all (propose : Propose.t) :
  slots_leading P = 0%nat ->
  (forall target, getAddressIndex P propose = CbOk target -> target = "NaN")
  /\ verifyPOW P propose <> Ret (CbOk true)
  /\ acceptPropose P propose <> Ret (CbOk tt).
Proof.
  intros HL.
  assert (Htarget : forall target, getAddressIndex P propose = CbOk target -> target = "NaN").
  { intros target Hget.
    destruct (DifficultyFacts.getAddressIndex_inv P propose target Hget) as (i & _ & _ & ->).
    rewrite HL. reflexivity. }
  assert (Hpow : verifyPOW P propose <> Ret (CbOk true)).
  { rewrite verifyPOW_unfold. destruct (getProposeHash P propose) as [digest|e]; simpl;
      [|discriminate].
    destruct (getAddressIndex P propose) as [err|target] eqn:Hget; [discriminate|].
    rewrite (Htarget target eq_refl).
    destruct (le_lt_dec _ _); [|discriminate]. destruct (le_lt_dec _ _); [|discriminate].
    rewrite hexEncode_not_NaN, andb_false_r. discriminate. }
  split; [exact Htarget|]. split; [exact Hpow|].
  unfold acceptPropose. destruct (verifyPOW P propose) as [[err|[|]]|e]; simpl;
    try discriminate. contradiction.
Qed.

(** [verifyPOW] reads the submitted hash only through its masked bytes:
    two proposals that differ in [hash] alone, with the same masked
    decoding (other hex case, other bits [0x88] in the first
    [slots.leading] bytes, text after the hex part), get the same
    verdict. *)
Theorem verifyPOW_reads_masked_hash (p q : Propose.t) :
  Propose.height p = Propose.height q -> Propose.id p = Propose.id q ->
  Propose.generatorPublicKey p = Propose.generatorPublicKey q ->
  Propose.timestamp p = Propose.timestamp q -> Propose.address p = Propose.address q ->
  Propose.nonce p = Propose.nonce q ->
  getDelegateIndex P p = getDelegateIndex P q ->
  mask (slots_leading P) (hexDecode (Propose.hash p))
  = mask (slots_leading P) (hexDecode (Propose.hash q)) ->
  verifyPOW P p = verifyPOW P q.
Proof.
  intros Hh Hi Hg Ht Ha Hn Hidx Hmask.
  rewrite !verifyPOW_unfold.
  rewrite (getProposeHash_fields p q Hh Hi Hg Ht Ha), (getAddressIndex_index p q Hidx), Hn.
  destruct (getProposeHash P q) as [digest|e]; simpl; [|reflexivity].
  destruct (getAddressIndex P q) as [err|target]; [reflexivity|].
  assert (Hlen : List.length (hexDecode (Propose.hash p)) = List.length (hexDecode (Propose.hash q))).
  { rewrite <- (ConsensusFacts.mask_length (slots_leading P) (hexDecode (Propose.hash p))).
    rewrite Hmask. apply ConsensusFacts.mask_length. }
  rewrite Hlen, Hmask. reflexivity.
Qed.

(** [proposePoWHashConvert] yields the lowercase hex text of the masked
    bytes, and converting its own output changes nothing. *)
Theorem proposePoWHashConvert_idem (hexPoWHash converted : string) :
  proposePoWHashConvert P hexPoWHash = Ret converted ->
  converted = hexEncode (mask (slots_leading P) (hexDecode hexPoWHash))
  /\ proposePoWHashConvert P converted = Ret converted.
Proof.
  unfold proposePoWHashConvert. rewrite maskLeading_cases.
  destruct (le_lt_dec _ _) as [Hle|Hlt]; simpl; [|discriminate].
  intros [= <-]. split; [reflexivity|].
  rewrite hexDecode_hexEncode, maskLeading_cases, ConsensusFacts.mask_length.
  destruct (le_lt_dec _ _); [|lia]. simpl. rewrite mask_idem. reflexivity.
Qed.

(** An address without exactly one colon makes [getProposeHash] throw,
    and the exception escapes [verifyPOW] and [acceptPropose]: their
    callback is not called. *)
Theorem malformed_address_throws (propose : Propose.t) :
  count_occ ascii_dec (list_ascii_of_string (Propose.address propose)) ":"%char <> 1%nat ->
  exists e, getProposeHash P propose = Throw e
    /\ verifyPOW P propose = Throw e
    /\ acceptPropose P propose = Throw e.
Proof.
  intros Hcount.
  assert (Hparts : List.length (split ":" (Propose.address propose)) <> 2%nat).
  { rewrite split_length. lia. }
  assert (Hthrow : exists e, getProposeHash P propose = Throw e).
  { unfold getProposeHash, proposeHashBytes.
    destruct (idBytes P (Propose.id propose)) as [idPart|e]; simpl; [|eauto].
    destruct (split ":" (Propose.address propose)) as [|a [|b [|c rest]]]; simpl in *;
      try (eexists; reflexivity). contradiction. }
  destruct Hthrow as [e He]. exists e. split; [exact He|].
  unfold acceptPropose, verifyPOW. rewrite He. auto.
Qed.

End WithPlatform.

Lemma leading_zero_rejects_all_witness :
  (forall target, getAddressIndex DemoExt.platform0 Demo.propose = CbOk target -> target = "NaN")
  /\ verifyPOW DemoExt.platform0 Demo.propose <> Ret (CbOk true)
  /\ acceptPropose DemoExt.platform0 Demo.propose <> Ret (CbOk tt).
Proof. apply (leading_zero_rejects_all DemoExt.platform0 Demo.propose). reflexivity. Defined.

Lemma verifyPOW_reads_masked_hash_witness :
  verifyPOW Demo.platform Demo.propose
  = verifyPOW Demo.platform (DemoExt.withHash DemoExt.tamperedHash Demo.propose).
Proof.
  apply (verifyPOW_reads_masked_hash Demo.platform Demo.propose
           (DemoExt.withHash DemoExt.tamperedHash Demo.propose)); reflexivity.
Defined.

Lemma proposePoWHashConvert_idem_witness :
  "7777ff" = hexEncode (mask 2 (hexDecode "FFFFFFzz"))
  /\ proposePoWHashConvert Demo.platform "7777ff" = Ret "7777ff".
Proof. apply (proposePoWHashConvert_idem Demo.platform "FFFFFFzz" "7777ff"). reflexivity. Defined.

Lemma malformed_address_throws_witness :
  exists e, getProposeHash Demo.platform (DemoExt.withAddress "192.168.0.1" Demo.propose) = Throw e
    /\ verifyPOW Demo.platform (DemoExt.withAddress "192.168.0.1" Demo.propose) = Throw e
    /\ acceptPropose Demo.platform (DemoExt.withAddress "192.168.0.1" Demo.propose) = Throw e.
Proof.
  apply (malformed_address_throws Demo.platform (DemoExt.withAddress "192.168.0.1" Demo.propose)).
  vm_compute. lia.
Defined.

End PowFacts.

Module VotesFacts.
Import Consensus ConsensusExt NumFacts BufFacts.

(** The hex text of a buffer is never the name of a member of
    [Object.prototype]. *)
Lemma hexEncode_not_inherited (buf : list byte) :
  bool_decide (hexEncode buf ∈ ObjectPrototype_names) = false.
Proof.
  apply bool_decide_eq_false. intros Hin.
  assert (Hrt : hexEncode (hexDecode (hexEncode buf)) = hexEncode buf)
    by (now rewrite hexDecode_hexEncode).
  unfold ObjectPrototype_names in Hin.
  repeat (apply elem_of_cons in Hin as [Hin|Hin];
          [rewrite Hin in Hrt; vm_compute in Hrt; discriminate Hrt|]).
  now apply elem_of_nil in Hin.
Qed.

Section WithPlatform.
Variable P : Platform.
Variable getSlotNumber : Z -> Z.
Variable ed_Sign : list byte -> Keypair -> JsM (list byte).

Lemma keySeen_fresh (m : gmap string bool) (k : string) :
  m !! k = None -> bool_decide (k ∈ ObjectPrototype_names) = false -> keySeen m k = false.
Proof. unfold keySeen. now intros -> ->. Qed.

(** One turn of the loop either leaves the state or appends the item. *)
Lemma addItem_appends (v : Votes.t) (item : VoteItem.t) (s : State) :
  (addItem P v item s = Ret s
   /\ (keySeen (votesKeySet s) (VoteItem.key item) = true
       \/ verifyVote P (Votes.height v) (Votes.id v) item = Ret false))
  \/ (keySeen (votesKeySet s) (VoteItem.key item) = false
      /\ verifyVote P (Votes.height v) (Votes.id v) item = Ret true
      /\ exists acc,
           addItem P v item s =
             Ret {| pendingBlock := pendingBlock s; pendingVotes := Some acc;
                    votesKeySet := <[VoteItem.key item := true]> (votesKeySet s) |}
           /\ Votes.signatures acc = sigsOf (pendingVotes s) ++ [item]
           /\ match pendingVotes s with
              | Some old => Votes.height acc = Votes.height old /\ Votes.id acc = Votes.id old
              | None => Votes.height acc = Votes.height v /\ Votes.id acc = Votes.id v
              end).
Proof.
  unfold addItem.
  destruct (keySeen (votesKeySet s) (VoteItem.key item)) eqn:Hseen; [left; auto|].
  rewrite ConsensusFacts.verifyVote_ret.
  destruct (verifyVote_body P (Votes.height v) (Votes.id v) item) as [[|]|e]; simpl.
  - right. split; [reflexivity|]. split; [reflexivity|].
    eexists. split; [reflexivity|]. simpl. destruct (pendingVotes s); simpl; auto.
  - left. auto.
  - left. auto.
Qed.

Lemma addItems_appends (v : Votes.t) (items : list VoteItem.t) (s : State) :
  exists s' extra,
    addItems P v items s = Ret s'
    /\ pendingBlock s' = pendingBlock s
    /\ sigsOf (pendingVotes s') = sigsOf (pendingVotes s) ++ extra
    /\ Forall (fun x => In x items
                 /\ verifyVote P (Votes.height v) (Votes.id v) x = Ret true) extra
    /\ (pendingVotes s' = None -> pendingVotes s = None)
    /\ headerKept v s s'.
Proof.
  revert s. induction items as [|item rest IH]; intros s; simpl.
  - exists s, []. rewrite app_nil_r. repeat split; auto.
    intros acc Hacc. rewrite Hacc. auto.
  - destruct (addItem_appends v item s) as [[-> _]|(Hs & Hv & acc & -> & Hsigs & Hhead)]; simpl.
    + destruct (IH s) as (s' & extra & -> & Hb & Happ & Hall & Hnone & Hkept).
      exists s', extra. repeat split; auto.
      eapply Forall_impl; [exact Hall|]. simpl. intros x [Hin Hx]. auto.
    + set (s1 := {| pendingBlock := pendingBlock s; pendingVotes := Some acc;
                    votesKeySet := <[VoteItem.key item := true]> (votesKeySet s) |}).
      destruct (IH s1) as (s' & extra & -> & Hb & Happ & Hall & Hnone & Hkept).
      exists s', (item :: extra). split; [reflexivity|]. split; [exact Hb|]. split; [|split; [|split]].
      * rewrite Happ. simpl. rewrite Hsigs, <- app_assoc. reflexivity.
      * constructor; [auto|]. eapply Forall_impl; [exact Hall|]. simpl. intros x [Hin Hx]. auto.
      * intros Hn. apply Hnone in Hn. discriminate Hn.
      * intros acc' Hacc'. specialize (Hkept acc' Hacc'). simpl in Hkept.
        destruct (pendingVotes s); intuition congruence.
Qed.

Lemma hasEnoughVotes_pending (s : State) :
  hasEnoughVotes P (jsOfPending s) =
  match pendingVotes s with
  | Some acc =>
      Ret (JBool (Qltb (inject_Z (slots_delegates P) * 2 / 3)
                       (inject_Z (Z.of_nat (List.length (Votes.signatures acc))))))
  | None => Ret JNull
  end.
Proof.
  unfold jsOfPending. destruct (pendingVotes s) as [acc|]; [|reflexivity].
  unfold jsOfVotes.
  rewrite (ConsensusFacts.hasEnoughVotes_array P _ (map jsOfItem (Votes.signatures acc)))
    by reflexivity.
  rewrite length_map. reflexivity.
Qed.

Lemma Qltb_mono (t : Q) (n m : nat) :
  (n <= m)%nat -> Qltb t (inject_Z (Z.of_nat n)) = true -> Qltb t (inject_Z (Z.of_nat m)) = true.
Proof.
  intros Hle. rewrite !Qltb_lt. unfold Qlt, inject_Z. simpl.
  intros H. assert (Z.of_nat n <= Z.of_nat m)%Z by lia. nia.
Qed.

Lemma addItem_header (v v' : Votes.t) (item : VoteItem.t) (s : State) :
  Votes.height v = Votes.height v' -> Votes.id v = Votes.id v' ->
  Votes.timestamp v = Votes.timestamp v' ->
  addItem P v item s = addItem P v' item s.
Proof. unfold addItem. intros -> -> ->. reflexivity. Qed.

(** On an array without [null] the loop is that of [addItems]. *)
Lemma addItemsRaw_typed (votes : RawVotes) (v : Votes.t) (items : list VoteItem.t) (s : State) :
  Votes.height v = rawHeight votes -> Votes.id v = rawId votes ->
  Votes.timestamp v = rawTimestamp votes ->
  exists s', addItems P v items s = Ret s'
    /\ addItemsRaw P votes (map Some items) s = (s', Ret tt).
Proof.
  intros Hh Hi Ht. revert s. induction items as [|item rest IH]; intros s; simpl.
  - exists s. auto.
  - rewrite (addItem_header (headerOf votes) v) by (simpl; congruence).
    destruct (addItem_appends v item s) as [[-> _]|(_ & _ & acc & -> & _)]; simpl; apply IH.
Qed.

Lemma addItemsRaw_appends (votes : RawVotes) (items : list (option VoteItem.t)) (s : State) :
  exists s' r extra,
    addItemsRaw P votes items s = (s', r)
    /\ pendingBlock s' = pendingBlock s
    /\ sigsOf (pendingVotes s') = sigsOf (pendingVotes s) ++ extra
    /\ Forall (fun x => In (Some x) items) extra
    /\ (pendingVotes s' = None -> pendingVotes s = None)
    /\ ((r = Ret tt /\ ~ In None items) \/ ((exists e, r = Throw e) /\ In None items)).
Proof.
  revert s. induction items as [|[item|] rest IH]; intros s; simpl.
  - exists s, (Ret tt), []. rewrite app_nil_r. repeat split; auto.
  - destruct (addItem_appends (headerOf votes) item s)
      as [[-> _]|(_ & _ & acc & -> & Hsigs & _)].
    + destruct (IH s) as (s' & r & extra & -> & Hb & Happ & Hall & Hnone & Hr).
      exists s', r, extra. split; [reflexivity|]. split; [exact Hb|]. split; [exact Happ|].
      split; [eapply Forall_impl; [exact Hall|]; simpl; auto|]. split; [exact Hnone|].
      destruct Hr as [[-> Hno]|[He Hin]]; [left | right]; split; auto.
      intros [H|H]; [discriminate H | auto].
    + set (s1 := {| pendingBlock := pendingBlock s; pendingVotes := Some acc;
                    votesKeySet := <[VoteItem.key item := true]> (votesKeySet s) |}).
      destruct (IH s1) as (s' & r & extra & -> & Hb & Happ & Hall & Hnone & Hr).
      exists s', r, (item :: extra). split; [reflexivity|]. split; [exact Hb|].
      split; [rewrite Happ; simpl; rewrite Hsigs, <- app_assoc; reflexivity|].
      split; [constructor; [now left|]; eapply Forall_impl; [exact Hall|]; simpl; auto|].
      split; [intros Hn; apply Hnone in Hn; discriminate Hn|].
      destruct Hr as [[-> Hno]|[He Hin]]; [left | right]; split; auto.
      intros [H|H]; [discriminate H | auto].
  - exists s, (Throw "TypeError: Cannot read property 'key' of null"), [].
    rewrite app_nil_r. repeat split; auto. right. split; [eauto | now left].
Qed.

(** [addPendingVotes] only ever appends, also when it is cut short.  For
    a vote whose signature items are [null] or objects with a text [key]
    and [sig]: the call returns the accumulator, or it throws a
    TypeError, which it does exactly when the vote is for the pending
    block and holds a [null] item; either way the signatures held before
    are a prefix of those held after, each new one is an item of the
    vote, and a threshold [hasEnoughVotes] has reached stays reached.
    Without a [null] item the call is the one of [Consensus]. *)
Theorem addPendingVotes_only_appends (votes : RawVotes) (s : State) :
  exists s' outcome extra,
    addPendingVotesRaw P votes s = (s', outcome)
    /\ sigsOf (pendingVotes s') = sigsOf (pendingVotes s) ++ extra
    /\ Forall (fun x => In (Some x) (rawSignatures votes)) extra
    /\ (hasEnoughVotes P (jsOfPending s) = Ret (JBool true) ->
        hasEnoughVotes P (jsOfPending s') = Ret (JBool true))
    /\ (outcome = Ret (pendingVotes s') \/ exists e, outcome = Throw e)
    /\ ((exists e, outcome = Throw e) <->
        In None (rawSignatures votes)
        /\ exists b, pendingBlock s = Some b
             /\ Block.height b = rawHeight votes /\ Block.id b = rawId votes)
    /\ (forall items v,
          rawSignatures votes = map Some items ->
          Votes.height v = rawHeight votes -> Votes.id v = rawId votes ->
          Votes.timestamp v = rawTimestamp votes -> Votes.signatures v = items ->
          addPendingVotes P v s = Ret (pendingVotes s', s') /\ outcome = Ret (pendingVotes s')).
Proof.
  assert (Hmono : forall s', (pendingVotes s' = None -> pendingVotes s = None) ->
            forall extra, sigsOf (pendingVotes s') = sigsOf (pendingVotes s) ++ extra ->
            hasEnoughVotes P (jsOfPending s) = Ret (JBool true) ->
            hasEnoughVotes P (jsOfPending s') = Ret (JBool true)).
  { intros s' Hnone extra Happ. rewrite !hasEnoughVotes_pending.
    destruct (pendingVotes s) as [old|] eqn:Hold; [|discriminate].
    destruct (pendingVotes s') as [acc|]; [|specialize (Hnone eq_refl); discriminate].
    simpl in Happ. intros [= Ht]. rewrite (Qltb_mono _ (List.length (Votes.signatures old))); auto.
    rewrite Happ, length_app. lia. }
  assert (Hstale : forall b : option Block.t,
            (forall b0, b = Some b0 ->
               Block.height b0 = rawHeight votes /\ Block.id b0 = rawId votes -> False) ->
            pendingBlock s = b ->
            addPendingVotesRaw P votes s = (s, Ret (pendingVotes s)) ->
            exists s' outcome extra,
              addPendingVotesRaw P votes s = (s', outcome)
              /\ sigsOf (pendingVotes s') = sigsOf (pendingVotes s) ++ extra
              /\ Forall (fun x => In (Some x) (rawSignatures votes)) extra
              /\ (hasEnoughVotes P (jsOfPending s) = Ret (JBool true) ->
                  hasEnoughVotes P (jsOfPending s') = Ret (JBool true))
              /\ (outcome = Ret (pendingVotes s') \/ exists e, outcome = Throw e)
              /\ ((exists e, outcome = Throw e) <->
                  In None (rawSignatures votes)
                  /\ exists b, pendingBlock s = Some b
                       /\ Block.height b = rawHeight votes /\ Block.id b = rawId votes)
              /\ (forall items v,
                    rawSignatures votes = map Some items ->
                    Votes.height v = rawHeight votes -> Votes.id v = rawId votes ->
                    Votes.timestamp v = rawTimestamp votes -> Votes.signatures v = items ->
                    addPendingVotes P v s = Ret (pendingVotes s', s')
                    /\ outcome = Ret (pendingVotes s'))).
  { intros b Hb Hpb E. exists s, (Ret (pendingVotes s)), []. rewrite app_nil_r.
    split; [exact E|]. split; [reflexivity|]. split; [constructor|]. split; [auto|].
    split; [now left|]. split.
    - split; [intros [e He]; discriminate He|].
      intros (_ & b0 & Hb0 & Hh & Hi). exfalso. apply (Hb b0); [congruence | auto].
    - intros items v _ Hh Hi _ _. split; [|reflexivity].
      unfold addPendingVotes. rewrite Hpb. destruct b as [b0|]; [|reflexivity].
      destruct (Z.eqb_spec (Block.height b0) (Votes.height v)) as [Heqh|_]; [|reflexivity].
      destruct (String.eqb_spec (Block.id b0) (Votes.id v)) as [Heqi|_]; [|reflexivity].
      exfalso. apply (Hb b0 eq_refl). split; congruence. }
  destruct (pendingBlock s) as [b|] eqn:Hpb.
  - destruct (Z.eqb_spec (Block.height b) (rawHeight votes)) as [Hh|Hh].
    + destruct (String.eqb_spec (Block.id b) (rawId votes)) as [Hi|Hi].
      * destruct (addItemsRaw_appends votes (rawSignatures votes) s)
          as (s' & r & extra & E & Hb' & Happ & Hall & Hnone & Hr).
        assert (Eraw : addPendingVotesRaw P votes s
                       = (s', let* _ := r in Ret (pendingVotes s'))).
        { unfold addPendingVotesRaw. rewrite Hpb.
          destruct (Z.eqb_spec (Block.height b) (rawHeight votes)) as [_|Hc]; [|contradiction].
          destruct (String.eqb_spec (Block.id b) (rawId votes)) as [_|Hc]; [|contradiction].
          cbn [negb orb]. rewrite E. reflexivity. }
        exists s', (let* _ := r in Ret (pendingVotes s')), extra.
        split; [exact Eraw|]. split; [exact Happ|]. split; [exact Hall|].
        split; [apply (Hmono s' Hnone extra Happ)|].
        destruct Hr as [[-> Hno]|[[e ->] Hin]]; cbn [bind].
        -- split; [now left|]. split.
           ++ split; [intros [e He]; discriminate He | intros [Hin _]; contradiction].
           ++ intros items v Hitems Hvh Hvi Hvt Hvs. split; [|reflexivity].
              destruct (addItemsRaw_typed votes v items s Hvh Hvi Hvt) as (s2 & Ety & Eraw2).
              rewrite <- Hitems, E in Eraw2. injection Eraw2 as <-.
              unfold addPendingVotes. rewrite Hpb, Hvh, Hvi.
              destruct (Z.eqb_spec (Block.height b) (rawHeight votes)) as [_|Hc]; [|contradiction].
              destruct (String.eqb_spec (Block.id b) (rawId votes)) as [_|Hc]; [|contradiction].
              cbn [negb orb]. rewrite Hvs, Ety. reflexivity.
        -- split; [right; eauto|]. split.
           ++ split; [intros _; split; [exact Hin | exists b; auto] | intros _; eauto].
           ++ intros items v Hitems _ _ _ _. exfalso. rewrite Hitems in Hin.
              apply in_map_iff in Hin as (x & Hx & _). discriminate Hx.
      * apply (Hstale (Some b)); [intros b0 [= <-] [_ Hc]; contradiction | reflexivity |].
        unfold addPendingVotesRaw. rewrite Hpb.
        destruct (String.eqb_spec (Block.id b) (rawId votes)) as [Hc|_]; [contradiction|].
        now rewrite orb_true_r.
    + apply (Hstale (Some b)); [intros b0 [= <-] [Hc _]; contradiction | reflexivity |].
      unfold addPendingVotesRaw. rewrite Hpb.
      destruct (Z.eqb_spec (Block.height b) (rawHeight votes)) as [Hc|_]; [contradiction|].
      reflexivity.
  - apply (Hstale None); [intros b0 H; discriminate H | reflexivity |].
    unfold addPendingVotesRaw. now rewrite Hpb.
Qed.

Lemma runOp_verified (o : Op) (s : State) :
  votesVerified P s -> exists s', runOp P o s = Ret s' /\ votesVerified P s'.
Proof.
  intros Hinv. destruct o as [b| |v]; simpl.
  - eexists. split; [reflexivity|]. exact I.
  - eexists. split; [reflexivity|]. exact I.
  - unfold addPendingVotes. destruct (pendingBlock s) as [b|] eqn:Hb; [|exists s; auto].
    destruct (Z.eqb_spec (Block.height b) (Votes.height v)) as [Hh|Hh]; simpl; [|exists s; auto].
    destruct (String.eqb_spec (Block.id b) (Votes.id v)) as [Hi|Hi]; simpl; [|exists s; auto].
    destruct (addItems_appends v (Votes.signatures v) s)
      as (s' & extra & -> & Hb' & Happ & Hall & Hnone & Hkept).
    exists s'. simpl. split; [reflexivity|].
    unfold votesVerified in *. destruct (pendingVotes s') as [acc|] eqn:Hacc; [|exact I].
    exists b. split; [congruence|]. specialize (Hkept acc Hacc). simpl in Happ.
    destruct (pendingVotes s) as [old|] eqn:Hold.
    + destruct Hinv as (b0 & Hb0 & Hh0 & Hi0 & Hold_ok).
      assert (b0 = b) by congruence. subst b0.
      destruct Hkept as [Hk1 Hk2]. split; [congruence|]. split; [congruence|].
      rewrite Happ. apply Forall_app. split; [exact Hold_ok|].
      eapply Forall_impl; [exact Hall|]. simpl. intros x [_ Hx]. rewrite Hh, Hi. exact Hx.
    + destruct Hkept as [Hk1 Hk2]. split; [congruence|]. split; [congruence|].
      rewrite Happ. simpl. eapply Forall_impl; [exact Hall|]. simpl.
      intros x [_ Hx]. rewrite Hh, Hi. exact Hx.
Qed.

(** After any sequence of operations from the initial state, the
    accumulator (if any) carries the height and id of the pending block,
    and every signature in it passed [verifyVote] for that block. *)
Theorem accumulated_votes_verified (ops : list Op) :
  exists s, run P ops initial = Ret s /\ votesVerified P s.
Proof.
  assert (H : forall s0, votesVerified P s0 ->
            exists s, run P ops s0 = Ret s /\ votesVerified P s).
  { induction ops as [|o rest IH]; intros s0 Hinv; simpl.
    - exists s0. auto.
    - destruct (runOp_verified o s0 Hinv) as (s1 & -> & Hinv1). simpl. now apply IH. }
  apply H. exact I.
Qed.

(** [addPendingVotes] leaves the pending block, hence the answer of
    [hasPendingBlock] for every timestamp; [clearState] makes it false
    and [setPendingBlock] makes it true exactly for the timestamps of the
    block's slot. *)
Theorem hasPendingBlock_follows_block (timestamp : Z) (s : State) :
  (forall v, exists r s',
      addPendingVotes P v s = Ret (r, s')
      /\ pendingBlock s' = pendingBlock s
      /\ hasPendingBlock getSlotNumber timestamp s' = hasPendingBlock getSlotNumber timestamp s)
  /\ hasPendingBlock getSlotNumber timestamp (clearState s) = false
  /\ hasPendingBlock getSlotNumber timestamp initial = false
  /\ (forall b, hasPendingBlock getSlotNumber timestamp (setPendingBlock b s) = true
                <-> getSlotNumber (Block.timestamp b) = getSlotNumber timestamp).
Proof.
  split; [|split; [reflexivity|split; [reflexivity|]]].
  - intros v. destruct (ConsensusFacts.addPendingVotes_total P v s) as (s' & E & Hb).
    exists (pendingVotes s'), s'. split; [exact E|]. split; [exact Hb|].
    unfold hasPendingBlock. rewrite Hb. reflexivity.
  - intros b. unfold hasPendingBlock. simpl. apply Z.eqb_eq.
Qed.

(** With at least 9 delegates the remote threshold is the weaker one:
    whenever [hasEnoughVotes] answers [true], so does
    [hasEnoughVotesRemote]. *)
Theorem remote_threshold_weaker (votes : JsVal) :
  (9 <= slots_delegates P)%Z ->
  hasEnoughVotes P votes = Ret (JBool true) ->
  hasEnoughVotesRemote P votes = Ret (JBool true).
Proof.
  intros HD. unfold hasEnoughVotes, hasEnoughVotesRemote, js_and.
  destruct (truthy votes) eqn:Hv; [|intros [= ->]; discriminate].
  destruct (getProp votes "signatures") as [sigs|e]; simpl; [|discriminate].
  destruct (truthy sigs) eqn:Hs; [|intros [= ->]; discriminate].
  destruct (getProp sigs "length") as [len|e]; simpl; [|discriminate].
  unfold js_gt, js_ge. destruct (ToNumber P len) as [[|y]|e]; simpl; try discriminate.
  intros [= Hgt]. f_equal. f_equal.
  apply Qltb_lt in Hgt. apply negb_true_iff, Qltb_ge.
  unfold Qlt, Qle, Qdiv, Qmult, Qinv, inject_Z in *. simpl in *. nia.
Qed.

Lemma signAll_ok (hash : list byte) (keypairs : list Keypair) :
  (forall kp, In kp keypairs ->
     exists sg, ed_Sign hash kp = Ret sg /\ ed_Verify P hash sg (publicKey kp) = Ret true) ->
  exists items,
    signAll ed_Sign hash keypairs = Ret items
    /\ map VoteItem.key items = map (fun kp => hexEncode (publicKey kp)) keypairs
    /\ Forall (fun item =>
                 ed_Verify P hash (hexDecode (VoteItem.sig item)) (hexDecode (VoteItem.key item))
                 = Ret true) items.
Proof.
  induction keypairs as [|kp rest IH]; intros Hall; simpl.
  - exists []. repeat split; constructor.
  - destruct (Hall kp (or_introl eq_refl)) as (sg & -> & Hver). simpl.
    destruct IH as (items & -> & Hkeys & Hok); [intros k Hk; apply Hall; now right|]. simpl.
    eexists. split; [reflexivity|]. simpl. split; [now rewrite Hkeys|].
    constructor; [|exact Hok]. simpl. now rewrite !hexDecode_hexEncode.
Qed.

Lemma addItems_fresh (v : Votes.t) (items : list VoteItem.t) (s : State) :
  NoDup (map VoteItem.key items) ->
  Forall (fun item => verifyVote P (Votes.height v) (Votes.id v) item = Ret true
                      /\ keySeen (votesKeySet s) (VoteItem.key item) = false) items ->
  exists s', addItems P v items s = Ret s'
    /\ pendingBlock s' = pendingBlock s
    /\ sigsOf (pendingVotes s') = sigsOf (pendingVotes s) ++ items.
Proof.
  revert s. induction items as [|item rest IH]; intros s Hnd Hall; simpl.
  - exists s. rewrite app_nil_r. auto.
  - apply NoDup_cons in Hnd as [Hnotin Hnd]. apply Forall_cons in Hall as [[Hv Hs] Hall].
    destruct (addItem_appends v item s) as [[_ [Hc|Hc]]|(_ & _ & acc & -> & Hsigs & _)];
      [congruence | congruence |]. simpl.
    set (s1 := {| pendingBlock := pendingBlock s; pendingVotes := Some acc;
                  votesKeySet := <[VoteItem.key item := true]> (votesKeySet s) |}).
    destruct (IH s1 Hnd) as (s' & -> & Hb & Happ).
    + apply Forall_forall. intros x Hx.
      pose proof (proj1 (Forall_forall _ _) Hall x Hx) as [Hxv Hxs].
      split; [exact Hxv|]. simpl. rewrite ConsensusFacts.keySeen_insert.
      destruct (decide (VoteItem.key item = VoteItem.key x)) as [Heq|_]; [|exact Hxs].
      exfalso. apply Hnotin. rewrite Heq. apply list_elem_of_In, in_map, list_elem_of_In, Hx.
    + exists s'. split; [reflexivity|]. split; [exact Hb|].
      rewrite Happ. simpl. rewrite Hsigs, <- app_assoc. reflexivity.
Qed.

(** The votes a node creates for the pending block are all accumulated:
    when the signatures [ed.Sign] makes are accepted by [ed.Verify] and
    the public keys are distinct, [addPendingVotes(createVotes(...))]
    after [setPendingBlock] holds exactly the created signatures, one per
    keypair and in the same order. *)
Theorem own_votes_accepted (keypairs : list Keypair) (block : Block.t) (s : State)
    (hash : list byte) :
  getVoteHash P (Block.height block) (Block.id block) = Ret hash ->
  (forall kp, In kp keypairs ->
     exists sg, ed_Sign hash kp = Ret sg /\ ed_Verify P hash sg (publicKey kp) = Ret true) ->
  NoDup (map publicKey keypairs) ->
  exists votes s',
    createVotes P ed_Sign keypairs block = Ret votes
    /\ map VoteItem.key (Votes.signatures votes)
       = map (fun kp => hexEncode (publicKey kp)) keypairs
    /\ addPendingVotes P votes (setPendingBlock block s) = Ret (pendingVotes s', s')
    /\ sigsOf (pendingVotes s') = Votes.signatures votes.
Proof.
  intros Hhash Hsign Hnd.
  destruct (signAll_ok hash keypairs Hsign) as (items & Hitems & Hkeys & Hok).
  unfold createVotes. rewrite Hhash. simpl. rewrite Hitems. simpl.
  set (votes := {| Votes.height := Block.height block; Votes.id := Block.id block;
                   Votes.signatures := items; Votes.timestamp := Block.timestamp block |}).
  exists votes.
  assert (Hfresh : exists s', addItems P votes items (setPendingBlock block s) = Ret s'
            /\ pendingBlock s' = Some block
            /\ sigsOf (pendingVotes s') = items).
  { destruct (addItems_fresh votes items (setPendingBlock block s)) as (s' & E & Hb & Happ).
    - rewrite Hkeys.
      replace (map (fun kp => hexEncode (publicKey kp)) keypairs)
        with (hexEncode <$> (map publicKey keypairs)) by (rewrite <- list_fmap_compose; reflexivity).
      apply NoDup_fmap_2; [|exact Hnd]. intros a b. apply hexEncode_inj.
    - apply Forall_forall. intros item Hin. split.
      + rewrite ConsensusFacts.verifyVote_ret. unfold verifyVote_body. simpl.
        rewrite Hhash. simpl.
        rewrite (proj1 (Forall_forall _ _) Hok item Hin). reflexivity.
      + simpl. apply keySeen_fresh; [apply lookup_empty|].
        assert (Hk : In (VoteItem.key item) (map VoteItem.key items))
          by (apply in_map, list_elem_of_In, Hin).
        rewrite Hkeys in Hk. apply in_map_iff in Hk as (kp & <- & _).
        apply hexEncode_not_inherited.
    - exists s'. auto. }
  destruct Hfresh as (s' & E & Hb & Hsigs).
  exists s'. split; [reflexivity|]. split; [exact Hkeys|].
  unfold addPendingVotes. simpl. rewrite Z.eqb_refl, String.eqb_refl. simpl.
  rewrite E. simpl. auto.
Qed.

End WithPlatform.

Lemma own_votes_accepted_witness :
  exists votes s',
    createVotes Demo.platform DemoExt.sign [DemoExt.keypair x01; DemoExt.keypair x02] Demo.block
    = Ret votes
    /\ map VoteItem.key (Votes.signatures votes)
       = map (fun kp => hexEncode (publicKey kp)) [DemoExt.keypair x01; DemoExt.keypair x02]
    /\ addPendingVotes Demo.platform votes (setPendingBlock Demo.block Demo.pending)
       = Ret (pendingVotes s', s')
    /\ sigsOf (pendingVotes s') = Votes.signatures votes.
Proof.
  apply (own_votes_accepted Demo.platform DemoExt.sign
           [DemoExt.keypair x01; DemoExt.keypair x02] Demo.block Demo.pending
           (Demo.digest (writeLong 10 ++ utf8 "A"))).
  - reflexivity.
  - intros kp [<-|[<-|[]]]; eexists; split; reflexivity.
  - simpl. apply NoDup_cons. split; [|apply NoDup_singleton].
    intros H. apply list_elem_of_singleton in H. discriminate H.
Defined.

Lemma remote_threshold_weaker_witness :
  hasEnoughVotesRemote Demo.platform (JObject [("signatures", JArray (repeat JNull 68))])
  = Ret (JBool true).
Proof.
  apply (remote_threshold_weaker Demo.platform); [simpl; lia | reflexivity].
Defined.

Lemma addPendingVotes_only_appends_witness :
  exists s' outcome,
    addPendingVotesRaw Demo.platform
      {| rawHeight := 10; rawId := "A";
         rawSignatures := [Some (Demo.item "02"); None; Some (Demo.item "03")];
         rawTimestamp := 1000000 |} DemoExt.quorum
    = (s', outcome)
    /\ hasEnoughVotes Demo.platform (jsOfPending s') = Ret (JBool true)
    /\ exists e, outcome = Throw e.
Proof.
  destruct (addPendingVotes_only_appends Demo.platform
              {| rawHeight := 10; rawId := "A";
                 rawSignatures := [Some (Demo.item "02"); None; Some (Demo.item "03")];
                 rawTimestamp := 1000000 |} DemoExt.quorum)
    as (s' & outcome & extra & E & _ & _ & Hkeeps & _ & Hthrows & _).
  exists s', outcome. split; [exact E|]. split; [apply Hkeeps; vm_compute; reflexivity|].
  apply Hthrows. split; [right; now left|]. exists Demo.block. repeat split.
Defined.

End VotesFacts.

Module ProposeFacts.
Import Consensus ConsensusExt BufFacts PowFacts.

Section WithPlatform.
Variable P : Platform.
Variable ed_Sign : list byte -> Keypair -> JsM (list byte).
Variable mint : string -> string -> Z -> Callback (string * N).
Variable powTimeOut : Z.

(** A proposal made by [createPropose] is accepted by [acceptPropose]:
    when the keypair is the block generator's, the miner answers with a
    nonce and the masked digest of the source followed by
    [nonce.toString()], starting with the difficulty string (for a nonce
    of [2^53] or more that text is not the decimal writing of the
    nonce), the digest has the bytes to mask, the
    delegates module answers alike for the unfinished and the finished
    proposal, and [ed.Verify] accepts what [ed.Sign] signs, then
    [createPropose] yields a proposal whose PoW and signature both
    verify. *)
Theorem created_propose_accepted (keypair : Keypair) (block : Block.t) (address : string)
    (digest : list byte) (target powHash : string) (powNonce : N) (sg : list byte) :
  let draft := proposeDraft block address in
  let final :=
    {| Propose.height := Block.height block; Propose.id := Block.id block;
       Propose.timestamp := Block.timestamp block;
       Propose.generatorPublicKey := Block.generatorPublicKey block;
       Propose.address := address;
       Propose.hash := powHash; Propose.nonce := powNonce;
       Propose.signature := hexEncode sg |} in
  let cand := sha256 P (utf8 (hexEncode digest ++ nonceToString powNonce)%string) in
  hexEncode (publicKey keypair) = Block.generatorPublicKey block ->
  getProposeHash P draft = Ret digest ->
  getAddressIndex P draft = CbOk target ->
  getDelegateIndex P final = getDelegateIndex P draft ->
  mint (hexEncode digest) target (powTimeOut * 1000) = CbOk (powHash, powNonce) ->
  powHash = hexEncode (mask (slots_leading P) cand) ->
  startsWith powHash target = true ->
  (slots_leading P <= List.length cand)%nat ->
  ed_Sign (hexDecode powHash) keypair = Ret sg ->
  ed_Verify P (hexDecode powHash) sg (publicKey keypair) = Ret true ->
  createPropose P ed_Sign mint powTimeOut keypair block address = Ret (CbOk final)
  /\ verifyPOW P final = Ret (CbOk true)
  /\ acceptPropose P final = Ret (CbOk tt).
Proof.
  intros draft final cand Hkey Hhash Htarget Hidx Hmint Hpow Hprefix Hsize Hsign Hverify.
  assert (Hcreate : createPropose P ed_Sign mint powTimeOut keypair block address
                    = Ret (CbOk final)).
  { unfold createPropose, pow. fold draft. rewrite Hkey, String.eqb_refl. simpl.
    rewrite Hhash. simpl. rewrite Htarget, Hmint. simpl. rewrite Hsign. reflexivity. }
  assert (Hverpow : verifyPOW P final = Ret (CbOk true)).
  { rewrite verifyPOW_unfold.
    rewrite (getProposeHash_fields P final draft) by reflexivity.
    rewrite (getAddressIndex_index P final draft Hidx), Hhash, Htarget. simpl.
    fold cand. rewrite Hpow, hexDecode_hexEncode, ConsensusFacts.mask_length, mask_idem.
    destruct (le_lt_dec _ _); [|lia].
    rewrite String.eqb_refl. rewrite <- Hpow, Hprefix. reflexivity. }
  split; [exact Hcreate|]. split; [exact Hverpow|].
  unfold acceptPropose. rewrite Hverpow. simpl.
  unfold verifySignature_body. simpl.
  rewrite hexDecode_hexEncode, <- Hkey, hexDecode_hexEncode, Hverify. reflexivity.
Qed.

End WithPlatform.

Lemma created_propose_accepted_witness :
  exists final,
    createPropose Demo.platform DemoExt.sign DemoExt.mint 5 (DemoExt.keypair x0a) Demo.block
      "192.168.0.1:7000" = Ret (CbOk final)
    /\ verifyPOW Demo.platform final = Ret (CbOk true)
    /\ acceptPropose Demo.platform final = Ret (CbOk tt).
Proof.
  eexists.
  apply (created_propose_accepted Demo.platform DemoExt.sign DemoExt.mint 5
           (DemoExt.keypair x0a) Demo.block "192.168.0.1:7000"
           (repeat x00 31 ++ [byte_of 22]) "00"
           (hexEncode (repeat x00 31 ++ [byte_of 68])) 4242
           (repeat x00 31 ++ [byte_of 68]));
    try reflexivity.
  vm_compute. lia.
Defined.

End ProposeFacts.

(* ===================================================================== *)
(** * Further properties of the peer module *)
(* ===================================================================== *)

Module AddressFacts.
Import Peer PeerExt StrFacts.

Lemma digits_string_of_uint (d : Decimal.uint) (c : ascii) :
  In c (list_ascii_of_string (NilEmpty.string_of_uint d)) -> isDigit c = true.
Proof.
  induction d; simpl; try tauto; intros [<-|H]; auto.
Qed.

Lemma toString10_inj (a b : N) : toString10 a = toString10 b -> a = b.
Proof.
  unfold toString10. intros H.
  apply (f_equal NilEmpty.uint_of_string) in H. rewrite !NilEmpty.usu in H.
  injection H as H. apply (f_equal N.of_uint) in H.
  now rewrite !DecimalN.Unsigned.of_to in H.
Qed.

Lemma toString10_not_minus (n : N) (rest : string) : toString10 n <> String "-" rest.
Proof.
  intros H. assert (Hd : isDigit "-" = true).
  { apply (digits_string_of_uint (N.to_uint n)). fold (toString10 n). rewrite H. now left. }
  discriminate Hd.
Qed.

Lemma numberText_inj (a b : Z) : numberText a = numberText b -> a = b.
Proof.
  unfold numberText.
  destruct (Z.ltb_spec a 0) as [Ha|Ha], (Z.ltb_spec b 0) as [Hb|Hb]; intros H.
  - rewrite !append_cons, !append_nil in H. injection H as H. apply toString10_inj in H. lia.
  - rewrite append_cons, append_nil in H. symmetry in H. now apply toString10_not_minus in H.
  - rewrite append_cons, append_nil in H. now apply toString10_not_minus in H.
  - apply toString10_inj in H. lia.
Qed.

Lemma numberText_no_colon (z : Z) : ~ In ":"%char (list_ascii_of_string (numberText z)).
Proof.
  unfold numberText. destruct (Z.ltb z 0).
  - rewrite append_cons, append_nil. simpl. intros [H|H]; [discriminate H|].
    apply digits_string_of_uint in H. discriminate H.
  - intros H. apply digits_string_of_uint in H. discriminate H.
Qed.

Lemma append_colon_inj (h1 h2 t1 t2 : string) :
  ~ In ":"%char (list_ascii_of_string t1) -> ~ In ":"%char (list_ascii_of_string t2) ->
  (h1 ++ ":" ++ t1)%string = (h2 ++ ":" ++ t2)%string -> h1 = h2 /\ t1 = t2.
Proof.
  intros Ht1 Ht2. revert h2. induction h1 as [|c h1 IH]; intros [|c2 h2] H;
    rewrite ?append_cons, ?append_nil in H.
  - injection H as H. auto.
  - injection H as Hc H. exfalso. apply Ht1. rewrite H, chars_append, in_app_iff.
    right. simpl. now left.
  - injection H as Hc H. exfalso. apply Ht2. rewrite <- H, chars_append, in_app_iff.
    right. simpl. now left.
  - injection H as -> H. destruct (IH h2 H) as [-> ->]. auto.
Qed.

(** Two nodes have the same address text exactly when they have the same
    host and the same port. *)
Lemma address_eq (host1 host2 : string) (port1 port2 : Z) :
  (host1 ++ ":" ++ numberText port1)%string = (host2 ++ ":" ++ numberText port2)%string
  <-> host1 = host2 /\ port1 = port2.
Proof.
  split.
  - intros H. apply append_colon_inj in H as [-> H]; try apply numberText_no_colon.
    split; [reflexivity | now apply numberText_inj].
  - intros [-> ->]. reflexivity.
Qed.

End AddressFacts.

Module HealthFacts.
Import Peer PeerExt AddressFacts.

Lemma existsb_eqb_In (a : string) (keys : list string) :
  existsb (String.eqb a) keys = true <-> In a keys.
Proof.
  rewrite existsb_exists. split.
  - intros (k & Hk & Heq). apply String.eqb_eq in Heq. now subst.
  - intros H. exists a. split; [exact H | apply String.eqb_refl].
Qed.

Lemma sublist_List_filter {A} (f : A -> bool) (l : list A) : sublist (List.filter f l) l.
Proof.
  induction l as [|x l IH]; simpl; [constructor|].
  destruct (f x); [now apply sublist_skip | now apply sublist_cons].
Qed.

Lemma fillNodesMap_spec (peers : list Node) (nodesMap : list (string * Node)) :
  NoDup (map fst nodesMap) ->
  exists ext,
    fillNodesMap nodesMap peers = nodesMap ++ ext
    /\ NoDup (map fst (nodesMap ++ ext))
    /\ (forall a n, In (a, n) ext -> a = address n)
    /\ sublist (map snd ext) peers
    /\ (forall n, In n peers -> In (address n) (map fst (nodesMap ++ ext))).
Proof.
  revert nodesMap. induction peers as [|n rest IH]; intros nodesMap Hnd; simpl.
  - exists []. rewrite app_nil_r. split; [reflexivity|]. split; [exact Hnd|].
    split; [intros a n []|]. split; [constructor | intros n []].
  - destruct (existsb (String.eqb (address n)) (map fst nodesMap)) eqn:Hseen.
    + apply existsb_eqb_In in Hseen.
      destruct (IH nodesMap Hnd) as (ext & -> & Hnd' & Hkeys & Hsub & Hcov).
      exists ext. repeat split; auto.
      * now apply sublist_cons.
      * intros m [<-|Hm]; [|auto]. rewrite map_app, in_app_iff. now left.
    + assert (Hfresh : ~ In (address n) (map fst nodesMap)).
      { intros Hin. apply existsb_eqb_In in Hin. congruence. }
      destruct (IH (nodesMap ++ [(address n, n)])) as (ext & -> & Hnd' & Hkeys & Hsub & Hcov).
      { rewrite map_app. simpl. apply NoDup_app. repeat split; auto.
        - intros x Hx Hx'. apply list_elem_of_singleton in Hx'. subst.
          apply Hfresh. now apply list_elem_of_In.
        - apply NoDup_singleton. }
      exists ((address n, n) :: ext). rewrite <- app_assoc in *. simpl in *.
      repeat split; auto.
      * intros a m [[= <- <-]|Hin]; [reflexivity | now apply Hkeys].
      * now apply sublist_skip.
      * intros m [<-|Hm]; [|auto]. rewrite map_app, in_app_iff. right. now left.
Qed.

(** [getHealthNodes] returns nodes of the routing table, in table order,
    none on a blacklisted host, none with the local host and port, and no
    two with the same host and port; every table node that is neither
    blacklisted nor the local node is represented by a node with its host
    and port.  Without a DHT it returns nothing. *)
Theorem getHealthNodes_spec (blackPeers : gset string) (publicIp : string) (peerPort : Z)
    (table : list Node) :
  let healthy := getHealthNodes blackPeers publicIp peerPort (Some table) in
  sublist healthy table
  /\ (forall n, In n healthy ->
        (host n ∉ blackPeers) /\ ~ (host n = publicIp /\ port n = peerPort))
  /\ (forall i j n m, healthy !! i = Some n -> healthy !! j = Some m ->
        host n = host m -> port n = port m -> i = j)
  /\ (forall n, In n table -> host n ∉ blackPeers ->
        ~ (host n = publicIp /\ port n = peerPort) ->
        exists m, In m healthy /\ host m = host n /\ port m = port n)
  /\ getHealthNodes blackPeers publicIp peerPort None = [].
Proof.
  unfold getHealthNodes.
  set (kept := List.filter
                 (fun n => negb (String.eqb (address n) (selfAddress publicIp peerPort)))
                 (List.filter (fun n => negb (bool_decide (host n ∈ blackPeers))) table)).
  destruct (fillNodesMap_spec kept []) as (ext & -> & Hnd & Hkeys & Hsub & Hcov);
    [constructor|]. simpl in *.
  assert (Hkept : forall n, In n kept <->
            In n table /\ (host n ∉ blackPeers) /\ ~ (host n = publicIp /\ port n = peerPort)).
  { intros n. unfold kept. rewrite !filter_In, !negb_true_iff, bool_decide_eq_false.
    rewrite String.eqb_neq. unfold address, selfAddress. rewrite address_eq. tauto. }
  assert (Haddr : map fst ext = map address (map snd ext)).
  { rewrite map_map. apply map_ext_in. intros [a n] Hin. simpl. now apply Hkeys. }
  split; [|split; [|split; [|split]]].
  - etrans; [exact Hsub|]. unfold kept.
    etrans; apply sublist_List_filter.
  - intros n Hn. apply list_elem_of_In in Hn.
    apply (fun H => elem_of_sublist _ _ _ H Hsub), list_elem_of_In in Hn.
    apply Hkept in Hn. tauto.
  - intros i j n m Hi Hj Hh Hp.
    rewrite Haddr in Hnd. apply (proj1 (NoDup_alt _) Hnd i j (address n)).
    + rewrite list_lookup_fmap, Hi. reflexivity.
    + rewrite list_lookup_fmap, Hj. simpl. f_equal. unfold address. now rewrite Hh, Hp.
  - intros n Hn Hb Hs. assert (Hk : In n kept) by (apply Hkept; auto).
    apply Hcov in Hk. rewrite Haddr in Hk. apply in_map_iff in Hk as (m & Hm & Hin).
    exists m. split; [exact Hin|]. unfold address in Hm. now apply address_eq in Hm.
  - reflexivity.
Qed.

End HealthFacts.

Module SelectionFacts.
Import Peer PeerExt.

Lemma pickPeers_spec (count : nat) (draw : nat -> nat) (k : nat)
    (allNodes randomPeers : list Node) :
  exists picked rest,
    pickPeers count draw k allNodes randomPeers
    = (randomPeers ++ picked, rest, (k + Nat.min count (List.length allNodes))%nat)
    /\ List.length picked = Nat.min count (List.length allNodes)
    /\ picked ++ rest ≡ₚ allNodes.
Proof.
  revert k allNodes randomPeers. induction count as [|count IH]; intros k allNodes randomPeers.
  - exists [], allNodes. simpl. rewrite app_nil_r, Nat.add_0_r. auto.
  - destruct allNodes as [|first tl].
    + exists [], []. simpl. rewrite app_nil_r, Nat.add_0_r. auto.
    + cbn [pickPeers].
      assert (Hpos : List.length (first :: tl) = S (List.length tl)) by reflexivity.
      set (allNodes := first :: tl) in *.
      set (rnd := randomIndex draw k (List.length allNodes)).
      assert (Hlt : (rnd < List.length allNodes)%nat).
      { unfold rnd, randomIndex. apply Nat.mod_upper_bound. lia. }
      destruct (lookup_lt_is_Some_2 allNodes rnd Hlt) as [peer Hpeer].
      assert (Hnth : nth rnd allNodes first = peer).
      { rewrite nth_lookup, Hpeer. reflexivity. }
      rewrite Hnth.
      destruct (IH (S k) (delete rnd allNodes) (randomPeers ++ [peer]))
        as (picked & rest & -> & Hlen & Hperm).
      assert (Hdel : List.length (delete rnd allNodes) = List.length tl).
      { rewrite length_delete by eauto. lia. }
      exists (peer :: picked), rest. rewrite <- app_assoc. simpl.
      rewrite Hdel in *. split; [|split].
      * f_equal. lia.
      * rewrite Hlen. reflexivity.
      * rewrite Hperm. symmetry. now apply delete_Permutation.
Qed.

(** [getRandomPeers]: an array no longer than [count] is returned as it
    is, untouched; from a longer one exactly [count] peers are taken out,
    and the peers returned together with those left in the argument are
    the original array, reordered. *)
Theorem getRandomPeers_spec (count : nat) (allNodes : list Node) (draw : nat -> nat) (k : nat) :
  ((List.length allNodes <= count)%nat ->
     getRandomPeers count allNodes draw k = (allNodes, allNodes, k))
  /\ ((count < List.length allNodes)%nat ->
      exists picked rest,
        getRandomPeers count allNodes draw k = (picked, rest, (k + count)%nat)
        /\ List.length picked = count
        /\ List.length rest = (List.length allNodes - count)%nat
        /\ picked ++ rest ≡ₚ allNodes).
Proof.
  unfold getRandomPeers. split; intros Hlen.
  - destruct (Nat.leb_spec (List.length allNodes) count); [reflexivity | lia].
  - destruct (Nat.leb_spec (List.length allNodes) count); [lia|].
    destruct (pickPeers_spec count draw k allNodes []) as (picked & rest & -> & Hl & Hperm).
    exists picked, rest. simpl. rewrite Nat.min_l in * by lia.
    split; [reflexivity|]. split; [exact Hl|]. split; [|exact Hperm].
    apply Permutation_length in Hperm. rewrite length_app in Hperm. lia.
Qed.

Lemma getbootstrapNode_cases (bootstrapNodes : list Node) (draw : nat -> nat) (k : nat) :
  ((List.length bootstrapNodes <= 1)%nat
   /\ getbootstrapNode bootstrapNodes draw k = (bootstrapNodes, bootstrapNodes, k))
  \/ ((2 <= List.length bootstrapNodes)%nat
      /\ exists peer rest,
           getbootstrapNode bootstrapNodes draw k = ([peer], rest, (k + 1)%nat)
           /\ bootstrapNodes ≡ₚ peer :: rest).
Proof.
  unfold getbootstrapNode, getRandomPeers.
  destruct (Nat.leb_spec (List.length bootstrapNodes) 1) as [Hle|Hgt]; [left; auto|].
  right. split; [lia|].
  destruct (pickPeers_spec 1 draw k bootstrapNodes []) as (picked & rest & -> & Hl & Hperm).
  rewrite Nat.min_l in * by lia.
  destruct picked as [|peer [|x picked]]; simpl in Hl; try discriminate.
  exists peer, rest. split; [reflexivity|]. symmetry. exact Hperm.
Qed.

(** [getbootstrapNode] takes its peer out of the shared bootstrap array:
    with two seeds or more it hands over one seed and the array loses
    that seed; after [calls] calls an array of [n >= 1] seeds holds
    [max 1 (n - calls)] of them, all from the original array. *)
Theorem getbootstrapNode_shrinks (bootstrapNodes : list Node) (draw : nat -> nat) (k : nat) :
  ((2 <= List.length bootstrapNodes)%nat ->
     exists peer rest,
       getbootstrapNode bootstrapNodes draw k = ([peer], rest, (k + 1)%nat)
       /\ bootstrapNodes ≡ₚ peer :: rest
       /\ List.length rest = (List.length bootstrapNodes - 1)%nat)
  /\ (forall calls,
        List.length (bootstrapAfter calls bootstrapNodes draw k)
        = Nat.max (Nat.min 1 (List.length bootstrapNodes)) (List.length bootstrapNodes - calls)
        /\ (forall n, In n (bootstrapAfter calls bootstrapNodes draw k) -> In n bootstrapNodes)).
Proof.
  split.
  - intros Hlen. destruct (getbootstrapNode_cases bootstrapNodes draw k)
      as [[Hle _]|(_ & peer & rest & E & Hperm)]; [lia|].
    exists peer, rest. split; [exact E|]. split; [exact Hperm|].
    apply Permutation_length in Hperm. simpl in Hperm. lia.
  - intros calls. revert bootstrapNodes k.
    induction calls as [|calls IH]; intros bootstrapNodes k.
    + cbn [bootstrapAfter]. split; [lia | auto].
    + cbn [bootstrapAfter].
      destruct (getbootstrapNode_cases bootstrapNodes draw k)
        as [[Hle ->]|(Hge & peer & rest & -> & Hperm)].
      * destruct (IH bootstrapNodes k) as [Hl Hin]. split; [rewrite Hl; lia | exact Hin].
      * destruct (IH rest (k + 1)%nat) as [Hl Hin].
        pose proof (Permutation_length Hperm) as Hpl. simpl in Hpl.
        split; [rewrite Hl; lia|].
        intros n Hn. apply Hin in Hn. apply list_elem_of_In.
        rewrite Hperm. apply elem_of_cons. right. now apply list_elem_of_In.
Qed.



Lemma getRandomPeers_spec_witness :
  getRandomPeers 3 DemoPeers.seeds DemoPeers.draw 0 = (DemoPeers.seeds, DemoPeers.seeds, 0%nat)
  /\ exists picked rest,
       getRandomPeers 2 DemoPeers.seeds DemoPeers.draw 0 = (picked, rest, (0 + 2)%nat)
       /\ List.length picked = 2%nat
       /\ List.length rest = (List.length DemoPeers.seeds - 2)%nat
       /\ picked ++ rest ≡ₚ DemoPeers.seeds.
Proof.
  split.
  - apply (proj1 (getRandomPeers_spec 3 DemoPeers.seeds DemoPeers.draw 0)). simpl. lia.
  - apply (proj2 (getRandomPeers_spec 2 DemoPeers.seeds DemoPeers.draw 0)). simpl. lia.
Defined.

Lemma getbootstrapNode_shrinks_witness :
  exists peer rest,
    getbootstrapNode DemoPeers.seeds DemoPeers.draw 0 = ([peer], rest, (0 + 1)%nat)
    /\ DemoPeers.seeds ≡ₚ peer :: rest
    /\ List.length rest = (List.length DemoPeers.seeds - 1)%nat.
Proof.
  apply (proj1 (getbootstrapNode_shrinks DemoPeers.seeds DemoPeers.draw 0)). simpl. lia.
Defined.


End SelectionFacts.

Module PeerMoreFacts.
Import Peer PeerExt NumFacts.

Lemma isInDht_app (a b : list Node) (n : Node) :
  isInDht (a ++ b) n = isInDht a n || isInDht b n.
Proof. unfold isInDht. apply existsb_app. Qed.

Lemma isInDht_self (l : list Node) (n : Node) : In n l -> isInDht l n = true.
Proof.
  intros Hin. unfold isInDht. apply existsb_exists. exists n. split; [exact Hin|].
  now rewrite String.eqb_refl, Z.eqb_refl.
Qed.

(** What a reconnect tick re-inserts are bootstrap seeds, in bootstrap
    order, absent from the table and differing from the local node in
    both host and port; once they are in the table, the next tick
    re-inserts nothing. *)
Theorem reconnectTick_settles (host0 : string) (port0 : Z)
    (bootstrapNodes allNodes : list Node) :
  sublist (reconnectTick host0 port0 bootstrapNodes allNodes) bootstrapNodes
  /\ (forall n, In n (reconnectTick host0 port0 bootstrapNodes allNodes) ->
        isInDht allNodes n = false /\ host n <> host0 /\ port n <> port0)
  /\ reconnectTick host0 port0 bootstrapNodes
       (allNodes ++ reconnectTick host0 port0 bootstrapNodes allNodes) = [].
Proof.
  split; [|split].
  - unfold reconnectTick. etrans; apply HealthFacts.sublist_List_filter.
  - intros n Hn. apply PeerFacts.reconnectTick_In in Hn. tauto.
  - set (added := reconnectTick host0 port0 bootstrapNodes allNodes).
    destruct (reconnectTick host0 port0 bootstrapNodes (allNodes ++ added)) as [|n rest] eqn:E;
      [reflexivity|].
    assert (Hn : In n (reconnectTick host0 port0 bootstrapNodes (allNodes ++ added)))
      by (rewrite E; now left).
    apply PeerFacts.reconnectTick_In in Hn as (Hb & Hdht & Hh & Hp).
    rewrite isInDht_app in Hdht. apply orb_false_iff in Hdht as [Hd1 Hd2].
    assert (Hadd : In n added) by (apply PeerFacts.reconnectTick_In; auto).
    apply (isInDht_self added n) in Hadd. congruence.
Qed.

Section WithPlatform.
Variable P : Platform.

(** Outside mainnet and testnet the minimum is 0.0.0: a numeric triplet
    is compatible exactly when it is lexicographically at least
    [(0,0,0)].  On every network a component that is not a number is
    passed over, so a triplet without any numeric component is
    compatible. *)
Theorem isCompatible_other_cases (version : string) :
  (forall a b c : Q,
     netVersion P <> "testnet" -> netVersion P <> "mainnet" ->
     map (Number P) (split "." version) = [Num a; Num b; Num c] ->
     (isCompatible P version = true <-> lexGe [a; b; c] [0; 0; 0]%Q))
  /\ (map (Number P) (split "." version) = [NaN; NaN; NaN] ->
      isCompatible P version = true).
Proof.
  split.
  - intros a b c Ht Hm Hnums. unfold isCompatible, compatibleVersion. rewrite Hnums.
    apply String.eqb_neq in Ht, Hm. rewrite Ht, Hm.
    cbn -[compareVersions]. apply PeerFacts.compareVersions_three.
  - intros Hnums. unfold isCompatible, compatibleVersion. rewrite Hnums.
    destruct (String.eqb (netVersion P) "testnet"); [reflexivity|].
    destruct (String.eqb (netVersion P) "mainnet"); reflexivity.
Qed.

End WithPlatform.

Lemma reconnectTick_settles_demo :
  reconnectTick "10.0.0.1" 5000 DemoPeers.seeds [DemoPeers.node "10.0.0.3" 5001]
  = [DemoPeers.node "10.0.0.4" 5002].
Proof. reflexivity. Qed.

Lemma isCompatible_other_cases_witness :
  (isCompatible DemoPeers.platformLocalnet "0.0.1" = true <-> lexGe [0; 0; 1]%Q [0; 0; 0]%Q)
  /\ isCompatible Demo.platform "a.b.c" = true.
Proof.
  split.
  - apply (proj1 (isCompatible_other_cases DemoPeers.platformLocalnet "0.0.1") 0 0 1)%Q;
      [discriminate | discriminate | reflexivity].
  - apply (proj2 (isCompatible_other_cases Demo.platform "a.b.c")). reflexivity.
Defined.

End PeerMoreFacts.

(* ===================================================================== *)
(** * Properties of the pool of unconfirmed transactions and of the
    storage asset *)
(* ===================================================================== *)

Module PoolFacts.
Import Transactions.

Lemma readIndex_own (index : gmap string nat) (k : string) (n : nat) :
  index !! k = Some n -> readIndex index k = IdxNumber n.
Proof. unfold readIndex. now intros ->. Qed.

Lemma readIndex_absent (index : gmap string nat) (k : string) :
  index !! k = None -> k ∉ Consensus.ObjectPrototype_names -> readIndex index k = IdxUndefined.
Proof.
  unfold readIndex. intros -> Hk. now rewrite bool_decide_eq_false_2.
Qed.

Lemma writeIndex_insert (k : string) (n : nat) (index : gmap string nat) :
  k ∉ Consensus.ObjectPrototype_names -> writeIndex k n index = <[k:=n]> index.
Proof.
  intros Hk. unfold writeIndex. destruct (String.eqb_spec k "__proto__") as [->|]; [|reflexivity].
  exfalso. apply Hk. unfold Consensus.ObjectPrototype_names. set_solver.
Qed.

Lemma notFalse_app (a b : list Slot) : notFalse (a ++ b) = notFalse a ++ notFalse b.
Proof.
  induction a as [|[trs| |] a IH]; simpl; rewrite ?IH; reflexivity.
Qed.

Lemma liveCount_app (a b : list Slot) : liveCount (a ++ b) = (liveCount a + liveCount b)%Z.
Proof.
  induction a as [|[trs| |] a IH]; simpl; rewrite ?IH; lia.
Qed.

Lemma tombstone_live (l : list Slot) (n : nat) (trs : Transaction) :
  l !! n = Some (Live trs) ->
  liveCount (<[n:=Removed]> l) = (liveCount l - 1)%Z
  /\ (~ In Hole l -> ~ In Hole (<[n:=Removed]> l))
  /\ exists before after,
       l = before ++ Live trs :: after /\ <[n:=Removed]> l = before ++ Removed :: after
       /\ List.length before = n.
Proof.
  intros Hn. pose proof (take_drop_middle l n (Live trs) Hn) as Hsplit.
  assert (Hlen : List.length (take n l) = n).
  { rewrite length_take. apply lookup_lt_Some in Hn. lia. }
  assert (Hins : <[n:=Removed]> l = take n l ++ Removed :: drop (S n) l).
  { rewrite <- Hsplit at 1. rewrite <- Hlen at 1.
    rewrite (insert_app_r_alt (take n l) _ (List.length (take n l))) by lia.
    rewrite Nat.sub_diag. reflexivity. }
  split; [|split].
  - assert (Hl : liveCount l = liveCount (take n l ++ Live trs :: drop (S n) l))
      by (now rewrite Hsplit).
    rewrite Hl, Hins, !liveCount_app. simpl. lia.
  - intros Hno Hin. apply Hno. rewrite Hins in Hin. rewrite <- Hsplit.
    rewrite in_app_iff in *. simpl in *. destruct Hin as [H|[H|H]]; auto. discriminate H.
  - exists (take n l), (drop (S n) l). auto.
Qed.

Lemma length_notFalse (l : list Slot) :
  ~ In Hole l ->
  Z.of_nat (List.length (notFalse l)) = liveCount l
  /\ Forall (fun x => x <> None) (notFalse l).
Proof.
  induction l as [|[trs| |] l IH]; simpl; intros Hno.
  - split; [reflexivity | constructor].
  - destruct IH as [Hl Hall]; [tauto|]. split; [lia|]. constructor; [discriminate | exact Hall].
  - apply IH. tauto.
  - exfalso. apply Hno. now left.
Qed.

Lemma remove_consistent (k : string) (p : Pool) :
  k ∉ Consensus.ObjectPrototype_names -> poolConsistent p ->
  poolConsistent (removeUnconfirmedTransaction k p).
Proof.
  intros Hk (Hnum & Hno & Hidx). unfold removeUnconfirmedTransaction.
  destruct (unconfirmedTransactionsIdIndex p !! k) as [n|] eqn:Hlook.
  - rewrite (readIndex_own _ _ _ Hlook).
    destruct (Hidx k n Hlook) as (trs & Hslot & Hid).
    assert (Hlt : (n < List.length (unconfirmedTransactions p))%nat)
      by (now apply lookup_lt_Some in Hslot).
    unfold poolConsistent, arraySet; simpl.
    destruct (Nat.ltb_spec n (List.length (unconfirmedTransactions p))); [|lia].
    destruct (tombstone_live _ _ _ Hslot) as (Hcount & Hholes & _).
    split; [lia|]. split; [auto|].
    intros k' n' Hk'. apply lookup_delete_Some in Hk' as [Hne Hk'].
    destruct (Hidx k' n' Hk') as (trs' & Hslot' & Hid').
    exists trs'. split; [|exact Hid'].
    rewrite list_lookup_insert_ne; [exact Hslot'|].
    intros ->. rewrite Hslot in Hslot'. injection Hslot' as <-. congruence.
  - rewrite (readIndex_absent _ _ Hlook Hk). repeat split; auto.
Qed.

Lemma add_consistent (applied : option string) (trs : Transaction) (p : Pool) :
  id trs ∉ Consensus.ObjectPrototype_names -> poolConsistent p ->
  poolConsistent (snd (addUnconfirmedTransaction applied trs p)).
Proof.
  intros Hk Hinv. destruct applied as [err|]; simpl; [now apply remove_consistent|].
  destruct Hinv as (Hnum & Hno & Hidx). unfold poolConsistent; simpl.
  rewrite (writeIndex_insert _ _ _ Hk). split; [|split].
  - rewrite liveCount_app. simpl. lia.
  - rewrite in_app_iff. simpl. intros [H|[H|[]]]; [auto | discriminate H].
  - intros k n Hlook. rewrite length_app in Hlook. simpl in Hlook.
    replace (List.length (unconfirmedTransactions p) + 1 - 1)%nat
      with (List.length (unconfirmedTransactions p)) in Hlook by lia.
    apply lookup_insert_Some in Hlook as [[<- <-]|[Hne Hlook]].
    + exists trs. split; [|reflexivity]. now rewrite list_lookup_middle.
    + destruct (Hidx k n Hlook) as (trs' & Hslot & Hid). exists trs'. split; [|exact Hid].
      rewrite lookup_app_l; [exact Hslot | now apply lookup_lt_Some in Hslot].
Qed.

Lemma empty_consistent : poolConsistent empty.
Proof.
  unfold poolConsistent, empty; simpl. repeat split; auto.
  intros k n. rewrite lookup_empty. discriminate.
Qed.

Lemma runPool_consistent (ops : list PoolOp) (p : Pool) :
  Forall (fun o => opId o ∉ Consensus.ObjectPrototype_names) ops ->
  poolConsistent p -> poolConsistent (runPool ops p).
Proof.
  unfold runPool. revert p. induction ops as [|o ops IH]; intros p Hops Hinv; simpl; [exact Hinv|].
  apply Forall_cons in Hops as [Ho Hops]. apply IH; [exact Hops|].
  destruct o as [applied trs|k]; simpl in *; [now apply add_consistent | now apply remove_consistent].
Qed.

(** After any sequence of additions and removals from the empty pool
    (ids that name no member of [Object.prototype]), the counter equals
    the number of transactions listed, the list holds no [undefined],
    a lookup by id returns a transaction only with that id, and
    [hasUnconfirmedTransaction] is true exactly when the lookup of the
    transaction's id returns a transaction. *)
Theorem pool_counter_and_index (ops : list PoolOp) :
  Forall (fun o => opId o ∉ Consensus.ObjectPrototype_names) ops ->
  let p := runPool ops empty in
  unconfirmedNumber p = Z.of_nat (List.length (getUnconfirmedTransactionList false None p))
  /\ Forall (fun x => x <> None) (getUnconfirmedTransactionList false None p)
  /\ (forall k trs, getUnconfirmedTransaction k p = RTransaction trs -> id trs = k)
  /\ (forall trs, id trs ∉ Consensus.ObjectPrototype_names ->
        (hasUnconfirmedTransaction trs p = true
         <-> exists found, getUnconfirmedTransaction (id trs) p = RTransaction found)).
Proof.
  intros Hops p.
  destruct (runPool_consistent ops empty Hops empty_consistent) as (Hnum & Hno & Hidx).
  fold p in Hnum, Hno, Hidx.
  destruct (length_notFalse _ Hno) as [Hlen Hall].
  split; [|split; [|split]].
  - simpl. lia.
  - exact Hall.
  - intros k trs. unfold getUnconfirmedTransaction, readIndex.
    destruct (unconfirmedTransactionsIdIndex p !! k) as [n|] eqn:Hlook.
    + destruct (Hidx k n Hlook) as (found & Hslot & Hid). simpl. unfold readSlot.
      rewrite Hslot. now intros [= <-].
    + destruct (bool_decide _); simpl; [destruct (bool_decide _)|]; discriminate.
  - intros trs Hk. unfold hasUnconfirmedTransaction, getUnconfirmedTransaction, readIndex.
    destruct (unconfirmedTransactionsIdIndex p !! id trs) as [n|] eqn:Hlook.
    + destruct (Hidx _ n Hlook) as (found & Hslot & Hid). simpl. unfold readSlot.
      rewrite Hslot. split; eauto.
    + rewrite bool_decide_eq_false_2 by exact Hk. simpl. split; [discriminate|].
      intros [found H]. discriminate H.
Qed.

(** Adding a transaction and removing it again: once added it is found
    by its id and listed last; once removed it is neither found nor
    listed, and the counter and the list are what they were before. *)
Theorem pool_add_remove (trs : Transaction) (p : Pool) :
  id trs ∉ Consensus.ObjectPrototype_names ->
  let added := snd (addUnconfirmedTransaction None trs p) in
  let removed := removeUnconfirmedTransaction (id trs) added in
  getUnconfirmedTransaction (id trs) added = RTransaction trs
  /\ hasUnconfirmedTransaction trs added = true
  /\ getUnconfirmedTransactionList false None added
     = getUnconfirmedTransactionList false None p ++ [Some trs]
  /\ unconfirmedNumber added = (unconfirmedNumber p + 1)%Z
  /\ getUnconfirmedTransaction (id trs) removed = RUndefined
  /\ hasUnconfirmedTransaction trs removed = false
  /\ getUnconfirmedTransactionList false None removed
     = getUnconfirmedTransactionList false None p
  /\ unconfirmedNumber removed = unconfirmedNumber p.
Proof.
  intros Hk added removed.
  set (txs := unconfirmedTransactions p).
  assert (Hadded : added =
            {| unconfirmedNumber := unconfirmedNumber p + 1;
               unconfirmedTransactions := txs ++ [Live trs];
               unconfirmedTransactionsIdIndex :=
                 <[id trs := List.length txs]> (unconfirmedTransactionsIdIndex p);
               memberKeys := memberKeys p |}).
  { unfold added. simpl. rewrite (writeIndex_insert _ _ _ Hk). fold txs.
    rewrite length_app. simpl. replace (List.length txs + 1 - 1)%nat with (List.length txs) by lia.
    reflexivity. }
  assert (Hread : readIndex (unconfirmedTransactionsIdIndex added) (id trs)
                  = IdxNumber (List.length txs)).
  { rewrite Hadded. simpl. apply readIndex_own. apply lookup_insert_eq. }
  assert (Hslot : unconfirmedTransactions added !! List.length txs = Some (Live trs)).
  { rewrite Hadded. simpl. now rewrite list_lookup_middle. }
  assert (Hremoved : removed =
            {| unconfirmedNumber := unconfirmedNumber p + 1 - 1;
               unconfirmedTransactions := txs ++ [Removed];
               unconfirmedTransactionsIdIndex := delete (id trs) (unconfirmedTransactionsIdIndex added);
               memberKeys := memberKeys p |}).
  { unfold removed, removeUnconfirmedTransaction. rewrite Hread.
    rewrite Hadded at 1 2 4. simpl. f_equal.
    unfold arraySet. rewrite length_app. simpl.
    destruct (Nat.ltb_spec (List.length txs) (List.length txs + 1)); [|lia].
    rewrite (insert_app_r_alt txs _ (List.length txs)) by lia.
    rewrite Nat.sub_diag. reflexivity. }
  assert (Hgone : readIndex (unconfirmedTransactionsIdIndex removed) (id trs) = IdxUndefined).
  { rewrite Hremoved. simpl. apply readIndex_absent; [apply lookup_delete_eq | exact Hk]. }
  clearbody added removed. split_and!.
  - unfold getUnconfirmedTransaction. rewrite Hread. simpl. unfold readSlot. now rewrite Hslot.
  - unfold hasUnconfirmedTransaction. rewrite Hread. simpl. unfold readSlot. now rewrite Hslot.
  - rewrite Hadded. simpl. now rewrite notFalse_app.
  - rewrite Hadded. reflexivity.
  - unfold getUnconfirmedTransaction. now rewrite Hgone.
  - unfold hasUnconfirmedTransaction. now rewrite Hgone.
  - rewrite Hremoved. simpl. rewrite notFalse_app. simpl. apply app_nil_r.
  - rewrite Hremoved. simpl. lia.
Qed.

Lemma pool_counter_and_index_witness :
  unconfirmedNumber (runPool DemoPool.ops empty)
  = Z.of_nat (List.length (getUnconfirmedTransactionList false None (runPool DemoPool.ops empty)))
  /\ Forall (fun x => x <> None)
            (getUnconfirmedTransactionList false None (runPool DemoPool.ops empty))
  /\ (forall k trs,
        getUnconfirmedTransaction k (runPool DemoPool.ops empty) = RTransaction trs -> id trs = k)
  /\ (forall trs, id trs ∉ Consensus.ObjectPrototype_names ->
        (hasUnconfirmedTransaction trs (runPool DemoPool.ops empty) = true
         <-> exists found,
               getUnconfirmedTransaction (id trs) (runPool DemoPool.ops empty)
               = RTransaction found)).
Proof.
  apply (pool_counter_and_index DemoPool.ops).
  unfold DemoPool.ops.
  repeat (apply List.Forall_cons; [apply (bool_decide_unpack _); vm_compute; exact I|]).
  apply List.Forall_nil.
Defined.

Lemma pool_add_remove_witness :
  getUnconfirmedTransaction "t9" (snd (addUnconfirmedTransaction None (DemoPool.tx "t9") empty))
  = RTransaction (DemoPool.tx "t9")
  /\ getUnconfirmedTransaction "t9"
       (removeUnconfirmedTransaction "t9"
          (snd (addUnconfirmedTransaction None (DemoPool.tx "t9") empty)))
     = RUndefined.
Proof.
  destruct (pool_add_remove (DemoPool.tx "t9") empty) as (Hfound & _ & _ & _ & Hgone & _).
  - apply (bool_decide_unpack _). vm_compute. exact I.
  - split; [exact Hfound | exact Hgone].
Defined.

End PoolFacts.

Module StorageFacts.
Import Transactions.

Lemma length_hexDecode (s : string) :
  (2 * List.length (hexDecode s) <= String.length s)%nat.
Proof.
  assert (H : (2 * List.length (hexDecode s) <= String.length s)%nat
              /\ forall c, (2 * List.length (hexDecode (String c s)) <= S (String.length s))%nat).
  { induction s as [|a s [IH1 IH2]].
    - split; [simpl; lia | intros c; simpl; lia].
    - split; [apply IH2|]. intros c. cbn [hexDecode].
      destruct (hexVal c); [|simpl; lia]. destruct (hexVal a); simpl; lia. }
  apply H.
Qed.

(** A storage asset that passes [verify] pays between one and 21 base
    fees; the size limit is on the decoded bytes, so every non-empty
    content of at most 8193 characters passes. *)
Theorem storage_fee_bounds (baseFee : Z) (content : string) :
  (0 <= baseFee)%Z ->
  (storageVerify (Some (Some content)) = CbOk tt ->
     (baseFee <= storageCalculateFee baseFee content <= 21 * baseFee)%Z)
  /\ (content <> EmptyString -> (Z.of_nat (String.length content) <= 8193)%Z ->
      storageVerify (Some (Some content)) = CbOk tt).
Proof.
  intros Hbase. unfold storageVerify, storageCalculateFee.
  pose proof (length_hexDecode content) as Hlen.
  destruct (String.eqb_spec content "") as [->|Hne]; split; try discriminate; try contradiction.
  - destruct (Z.ltb_spec 4096 (Z.of_nat (List.length (hexDecode content)))) as [Hbig|Hok];
      [discriminate|]. intros _.
    assert (0 <= Z.of_nat (List.length (hexDecode content)) / 200 <= 20)%Z.
    { Z.div_mod_to_equations. lia. }
    nia.
  - intros _ Hshort.
    destruct (Z.ltb_spec 4096 (Z.of_nat (List.length (hexDecode content)))); [lia | reflexivity].
Qed.

Lemma storage_fee_bounds_witness :
  (storageVerify (Some (Some "0a0bzz")) = CbOk tt ->
     (5 <= storageCalculateFee 5 "0a0bzz" <= 21 * 5)%Z)
  /\ ("0a0bzz" <> EmptyString -> (Z.of_nat (String.length "0a0bzz") <= 8193)%Z ->
      storageVerify (Some (Some "0a0bzz")) = CbOk tt).
Proof. apply (storage_fee_bounds 5 "0a0bzz"). lia. Defined.

End StorageFacts.

Module RouterFacts.
Import Router StrFacts.

Lemma split_inv (sep : ascii) (s : string) :
  (forall a, split sep s = [a] -> s = a /\ ~ In sep (list_ascii_of_string a))
  /\ (forall a b, split sep s = [a; b] ->
        s = (a ++ String sep b)%string
        /\ ~ In sep (list_ascii_of_string a) /\ ~ In sep (list_ascii_of_string b)).
Proof.
  induction s as [|c s [IH1 IH2]].
  - split.
    + intros a [= <-]. simpl. auto.
    + intros a b H. discriminate H.
  - cbn [split]. destruct (Ascii.eqb_spec c sep) as [->|Hne].
    + split.
      * intros a H. injection H as _ H.
        pose proof (split_length sep s) as Hl. rewrite H in Hl. discriminate Hl.
      * intros a b H. injection H as <- H. destruct (IH1 b H) as [-> Hb].
        rewrite append_nil. simpl. auto.
    + destruct (split sep s) as [|h t] eqn:Hs.
      * split; [|intros a b H; discriminate H].
        pose proof (split_length sep s) as Hl. rewrite Hs in Hl. discriminate Hl.
      * split.
        -- intros a H. injection H as <- ->. destruct (IH1 h eq_refl) as [-> Hh].
           split; [reflexivity|]. simpl. intros [H|H]; [congruence | auto].
        -- intros a b H. injection H as <- ->. destruct (IH2 h b eq_refl) as (-> & Hh & Hb).
           rewrite append_cons. split; [reflexivity|]. split; [|exact Hb].
           simpl. intros [H|H]; [congruence | auto].
Qed.

Lemma split_no_sep (sep : ascii) (s : string) :
  ~ In sep (list_ascii_of_string s) -> split sep s = [s].
Proof.
  induction s as [|c s IH]; [reflexivity|]. simpl. intros Hno.
  destruct (Ascii.eqb_spec c sep) as [->|Hne]; [tauto|].
  rewrite IH by tauto. reflexivity.
Qed.

Lemma split_app_sep (sep : ascii) (a b : string) :
  ~ In sep (list_ascii_of_string a) ->
  split sep (a ++ String sep b)%string = a :: split sep b.
Proof.
  induction a as [|c a IH]; intros Hno.
  - rewrite append_nil. cbn [split]. now rewrite Ascii.eqb_refl.
  - rewrite append_cons. cbn [split]. simpl in Hno.
    destruct (Ascii.eqb_spec c sep) as [->|Hne]; [tauto|].
    rewrite IH by tauto. reflexivity.
Qed.

Lemma checkRoute_error (params e : string) :
  checkRoute params = Throw e -> e = "Error: wrong map config".
Proof.
  unfold checkRoute. destruct (split " " params) as [|m [|pth [|x rest]]];
    try (now intros [= <-]).
  destruct (existsb _ _); [discriminate | now intros [= <-]].
Qed.

(** The check of [map] passes a configuration key exactly when it is a
    method, "post", "get" or "put", one space, and a path without a
    space; any other key throws "wrong map config" before the router is
    touched.  A key that passes is handed to [router[method](path, ..)]
    with that method and path, and is registered unless express throws
    there. *)
Theorem checkRoute_accepts (register : string -> string -> JsM unit) (params : string) :
  (forall method path, checkRoute params = Ret (method, path) ->
     params = (method ++ " " ++ path)%string
     /\ In method ["post"; "get"; "put"]
     /\ ~ In " "%char (list_ascii_of_string path))
  /\ (forall method path,
        In method ["post"; "get"; "put"] -> ~ In " "%char (list_ascii_of_string path) ->
        checkRoute (method ++ " " ++ path)%string = Ret (method, path))
  /\ (forall e, checkRoute params = Throw e ->
        e = "Error: wrong map config" /\ mapRoute register params = Throw e)
  /\ (forall method path, checkRoute params = Ret (method, path) ->
        (register method path = Ret tt -> mapRoute register params = Ret (method, path))
        /\ (forall e, register method path = Throw e -> mapRoute register params = Throw e)).
Proof.
  split; [|split; [|split]].
  - intros method path. unfold checkRoute.
    destruct (split " " params) as [|m [|pth [|x rest]]] eqn:Hs; try discriminate.
    destruct (existsb (String.eqb m) ["post"; "get"; "put"]) eqn:Hm; [|discriminate].
    intros [= <- <-]. destruct (proj2 (split_inv " " params) m pth Hs) as (-> & _ & Hp).
    split; [reflexivity|]. split; [|exact Hp].
    apply existsb_exists in Hm as (x & Hx & Heq). apply String.eqb_eq in Heq. now subst.
  - intros method path Hm Hp. unfold checkRoute.
    assert (Hnosp : ~ In " "%char (list_ascii_of_string method)).
    { simpl in Hm. destruct Hm as [<-|[<-|[<-|[]]]]; simpl; intuition discriminate. }
    change (method ++ " " ++ path)%string with (method ++ String " " path)%string.
    rewrite (split_app_sep " " method path Hnosp), (split_no_sep " " path Hp).
    assert (Hex : existsb (String.eqb method) ["post"; "get"; "put"] = true).
    { apply existsb_exists. exists method. split; [exact Hm | apply String.eqb_refl]. }
    rewrite Hex. reflexivity.
  - intros e He. split; [now apply checkRoute_error in He|].
    unfold mapRoute. rewrite He. reflexivity.
  - intros method path Hc. unfold mapRoute. rewrite Hc. cbn [bind fst snd].
    split; [intros ->; reflexivity | intros e ->; reflexivity].
Qed.

(** [map] registers the routes in the order of the keys and stops at the
    first key that fails, in the check or in express: the routes
    registered are those of the keys before it, each with its handler
    name, no exception means every key was registered, and an exception
    is the one of the failing key, "wrong map config" or what express
    throws on its path. *)
Theorem mapRoutes_prefix (register : string -> string -> JsM unit)
    (config : list (string * string)) :
  exists routes thrown,
    mapRoutes register config = (routes, thrown)
    /\ Forall2 (fun route entry =>
                  checkRoute (fst entry) = Ret (fst route)
                  /\ register (fst (fst route)) (snd (fst route)) = Ret tt
                  /\ snd route = snd entry)
               routes (take (List.length routes) config)
    /\ (thrown = None <-> List.length routes = List.length config)
    /\ (forall e, thrown = Some e ->
          exists params name,
            config !! List.length routes = Some (params, name)
            /\ (checkRoute params = Throw e
                \/ exists method path,
                     checkRoute params = Ret (method, path)
                     /\ register method path = Throw e)).
Proof.
  induction config as [|[params name] rest IH]; simpl.
  - exists [], None. repeat split; auto; try constructor. intros e H. discriminate H.
  - unfold mapRoute. destruct (checkRoute params) as [[method path]|e] eqn:Hc; cbn [bind fst snd].
    + destruct (register method path) as [[]|e] eqn:Hr; cbn [bind].
      * destruct IH as (routes & thrown & -> & Hall & Hnone & Hthrown).
        exists ((method, path, name) :: routes), thrown. simpl.
        split; [reflexivity|]. split; [constructor; [simpl; auto | exact Hall]|].
        split; [rewrite Hnone; lia | exact Hthrown].
      * exists [], (Some e). simpl. split; [reflexivity|]. split; [constructor|].
        split; [split; discriminate|]. intros e' [= <-]. exists params, name.
        split; [reflexivity|]. right. eauto.
    + exists [], (Some e). simpl. split; [reflexivity|]. split; [constructor|].
      split; [split; discriminate|]. intros e' [= <-]. exists params, name. auto.
Qed.

Lemma checkRoute_accepts_witness :
  checkRoute ("get" ++ " " ++ "/unconfirmed/get")%string = Ret ("get", "/unconfirmed/get").
Proof.
  apply (proj1 (proj2 (checkRoute_accepts (fun _ _ => Ret tt) "get /unconfirmed/get"))
           "get" "/unconfirmed/get").
  - simpl. auto.
  - vm_compute. intuition discriminate.
Defined.

(** A path express cannot compile ends [map] after the routes before
    it. *)
Example mapRoutes_express_throws :
  mapRoutes (fun _ path => if String.eqb path "/(" then Throw "SyntaxError" else Ret tt)
    [("get /a", "getA"); ("get /(", "getB"); ("put /c", "putC")]
  = ([("get", "/a", "getA")], Some "SyntaxError").
Proof. reflexivity. Qed.

End RouterFacts.

Module RequestFacts.
Import Peer PeerExt PeerRequest.

Lemma onEvents_done {R} (node : Node) (events : list (Event R)) :
  onEvents node true events = [].
Proof. induction events as [|e rest IH]; simpl; auto. Qed.

(** [randomRequest] calls [cb] once and no more: without a node, with
    "No contact"; with a node, for the first of the timer and the
    response, whatever comes after. *)
Theorem randomRequest_calls_once {R} (node : Node) (e : Event R) (later : list (Event R)) :
  randomRequest (R := R) None (e :: later) = [ReplyNoContact]
  /\ randomRequest (Some node) ([] : list (Event R)) = []
  /\ randomRequest (Some node) (e :: later)
     = [match e with
        | TimerFired => ReplyTimeout node
        | Responded outcome => ReplyOutcome outcome node
        end].
Proof.
  split; [reflexivity|]. split; [reflexivity|].
  unfold randomRequest. destruct e; simpl; now rewrite onEvents_done.
Qed.

Lemma onEvents_replies {R} (node : Node) (flag : bool) (events : list (Event R)) :
  ~ In ReplyNoContact (onEvents node flag events).
Proof.
  revert flag. induction events as [|e rest IH]; intros flag; simpl; [tauto|].
  unfold onEvent. destruct flag; simpl; [apply IH|].
  destruct e; simpl; intros [H|H]; try discriminate H; exact (IH true H).
Qed.

Lemma pickNode_spec (nodes : list Node) (draw : nat -> nat) (k : nat) :
  (nodes = [] /\ pickNode nodes draw k = None)
  \/ (nodes <> [] /\ exists n, pickNode nodes draw k = Some n /\ In n nodes).
Proof.
  destruct nodes as [|h t]; [left; auto|]. right. split; [discriminate|].
  unfold pickNode.
  assert (Hlt : (randomIndex draw k (List.length (h :: t)) < List.length (h :: t))%nat).
  { unfold randomIndex. apply Nat.mod_upper_bound. simpl. lia. }
  destruct (lookup_lt_is_Some_2 (h :: t) _ Hlt) as [n Hn]. exists n. split; [exact Hn|].
  apply list_elem_of_In. eapply list_elem_of_lookup_2. exact Hn.
Qed.

(** [getRandomNode] picks among the healthy nodes when there are any,
    else among the bootstrap seeds; it returns [undefined] exactly when
    there is no healthy node and the bootstrap array is empty, and it
    throws exactly when there is no healthy node and [initDHT] has not
    set the bootstrap array yet.  So [randomRequest] answers
    "No contact" exactly in the first case, and in the second the
    exception escapes it without any call of [cb]. *)
Theorem getRandomNode_source {R} (healthy : list Node) (bootstrapNodes : option (list Node))
    (draw : nat -> nat) (k : nat) (events : list (Event R)) :
  (healthy <> [] ->
     exists n, getRandomNode healthy bootstrapNodes draw k = Ret (Some n) /\ In n healthy)
  /\ (forall seeds, healthy = [] -> bootstrapNodes = Some seeds -> seeds <> [] ->
      exists n, getRandomNode healthy bootstrapNodes draw k = Ret (Some n) /\ In n seeds)
  /\ (getRandomNode healthy bootstrapNodes draw k = Ret None
      <-> healthy = [] /\ bootstrapNodes = Some [])
  /\ ((exists e, getRandomNode healthy bootstrapNodes draw k = Throw e)
      <-> healthy = [] /\ bootstrapNodes = None)
  /\ ((exists replies,
         randomRequestFrom healthy bootstrapNodes draw k events = Ret replies
         /\ In ReplyNoContact replies)
      <-> healthy = [] /\ bootstrapNodes = Some [])
  /\ ((exists e, randomRequestFrom healthy bootstrapNodes draw k events = Throw e)
      <-> healthy = [] /\ bootstrapNodes = None).
Proof.
  assert (Hnone : getRandomNode healthy bootstrapNodes draw k = Ret None
                  <-> healthy = [] /\ bootstrapNodes = Some []).
  { unfold getRandomNode. destruct healthy as [|h hs].
    - destruct bootstrapNodes as [seeds|].
      + destruct (pickNode_spec seeds draw k) as [[-> ->]|(Hne & n & -> & _)].
        * tauto.
        * split; [discriminate | intros [_ [= ->]]; contradiction].
      + split; [discriminate | intros [_ H]; discriminate H].
    - destruct (pickNode_spec (h :: hs) draw k) as [[H _]|(_ & n & -> & _)]; [discriminate H|].
      split; [discriminate | intros [H _]; discriminate H]. }
  assert (Hthrow : (exists e, getRandomNode healthy bootstrapNodes draw k = Throw e)
                   <-> healthy = [] /\ bootstrapNodes = None).
  { unfold getRandomNode. destruct healthy as [|h hs].
    - destruct bootstrapNodes as [seeds|].
      + split; [intros [e H]; discriminate H | intros [_ H]; discriminate H].
      + split; [auto | eauto].
    - split; [intros [e H]; discriminate H | intros [H _]; discriminate H]. }
  split; [|split; [|split; [exact Hnone | split; [exact Hthrow | split]]]].
  - intros Hne. unfold getRandomNode. destruct healthy as [|h hs]; [congruence|].
    destruct (pickNode_spec (h :: hs) draw k) as [[H _]|(_ & n & -> & Hin)]; [discriminate H|].
    eauto.
  - intros seeds -> -> Hne. unfold getRandomNode.
    destruct (pickNode_spec seeds draw k) as [[H _]|(_ & n & -> & Hin)]; [contradiction|].
    eauto.
  - rewrite <- Hnone. unfold randomRequestFrom.
    destruct (getRandomNode healthy bootstrapNodes draw k) as [[node|]|e]; cbn [bind].
    + split; [|discriminate]. intros (replies & [= <-] & Hin).
      now apply onEvents_replies in Hin.
    + split; [reflexivity|]. intros _. eexists. split; [reflexivity | now left].
    + split; [intros (replies & H & _); discriminate H | discriminate].
  - rewrite <- Hthrow. unfold randomRequestFrom.
    destruct (getRandomNode healthy bootstrapNodes draw k) as [node|e]; cbn [bind].
    + split; intros [e H]; discriminate H.
    + split; intros _; eauto.
Qed.

Lemma getRandomNode_source_witness :
  exists n,
    getRandomNode [] (Some DemoPeers.seeds) DemoPeers.draw 0 = Ret (Some n)
    /\ In n DemoPeers.seeds.
Proof.
  apply (proj1 (proj2 (getRandomNode_source (R := unit) [] (Some DemoPeers.seeds)
                         DemoPeers.draw 0 [])) DemoPeers.seeds);
    [reflexivity | reflexivity | discriminate].
Defined.

End RequestFacts.

Module HelperFacts.
Import P2PHelper.

(** When the answer of a bootstrap peer is handled, [publicIpChanged] is
    emitted exactly when the configured public IP changes, and only for
    a non-empty address that is not private; handling the same answer
    again changes nothing and emits nothing. *)
Theorem onAcquireIp_settles (isPrivate : string -> bool) (publicIp : option string)
    (err : bool) (statusCode : Z) (body : option (option string))
    (after emitted : option string) (found : bool) :
  onAcquireIp isPrivate publicIp err statusCode body = Ret (after, emitted, found) ->
  (forall x, emitted = Some x ->
     after = Some x /\ publicIp <> Some x /\ x <> EmptyString /\ isPrivate x = false)
  /\ (emitted = None -> after = publicIp)
  /\ onAcquireIp isPrivate after err statusCode body = Ret (after, None, found).
Proof.
  assert (Hdone : forall x : string, (x =? x)%string = true) by apply String.eqb_refl.
  unfold onAcquireIp. destruct (err || negb (Z.eqb statusCode 200));
    [intros [= <- <- <-]; split; [intros x Hx; discriminate Hx | auto]|].
  destruct body as [[newIp|]|];
    [| intros [= <- <- <-]; split; [intros x Hx; discriminate Hx | auto] | discriminate].
  destruct (String.eqb_spec newIp "") as [->|Hne]; simpl;
    [intros [= <- <- <-]; split; [intros x Hx; discriminate Hx | auto]|].
  destruct (isPrivate newIp) eqn:Hpriv; simpl;
    [intros [= <- <- <-]; split; [intros x Hx; discriminate Hx | auto]|].
  destruct publicIp as [currentIp|].
  - destruct (String.eqb_spec currentIp newIp) as [->|Hdiff]; intros [= <- <- <-].
    + split; [intros x Hx; discriminate Hx|]. rewrite Hdone. auto.
    + split; [|split; [discriminate | now rewrite Hdone]].
      intros x [= <-]. repeat split; auto; congruence.
  - intros [= <- <- <-]. split; [|split; [discriminate | now rewrite Hdone]].
    intros x [= <-]. repeat split; auto; discriminate.
Qed.

Lemma onAcquireIp_settles_witness :
  (forall x, Some "8.8.4.4" = Some x ->
     Some "8.8.4.4" = Some x /\ Some "10.0.0.1" <> Some x /\ x <> EmptyString
     /\ String.prefix "10." x = false)
  /\ (Some "8.8.4.4" = None -> Some "8.8.4.4" = Some "10.0.0.1")
  /\ onAcquireIp (String.prefix "10.") (Some "8.8.4.4") false 200 (Some (Some "8.8.4.4"))
     = Ret (Some "8.8.4.4", None, true).
Proof.
  apply (onAcquireIp_settles (String.prefix "10.") (Some "10.0.0.1") false 200
           (Some (Some "8.8.4.4")) (Some "8.8.4.4") (Some "8.8.4.4") true).
  reflexivity.
Defined.

End HelperFacts.
